(** * DOMCHAT: retrieval pipeline of the domain / document chat service

    A shallow embedding of the crawler, the chunker, the two vector
    stores, the bounded chat histories and the re-sync entry point of
    the repository ([core/crawler.py], [core/processor.py],
    [core/doc_vector_store.py], [core/doc_processor.py],
    [core/llm_local.py], [core/doc_analyzer.py], [core/analyzer.py]),
    followed by the properties of the specification stated over it.

    Python strings are modelled as [string]: sequences of characters
    with code points below 256 (Latin-1), on which the whitespace and
    the case mapping are the ones of Python's [str]; text with code
    points from 256 on is not represented.  Dictionaries are modelled
    as [gmap], sets as [gset], lists as [list].  Everything that lives outside the repository (the network,
    the HTML parser, the tokenizer, the embedding model, the hash
    functions, the iteration order of a Python [set]) is a field of an
    explicit environment record. *)

From Stdlib Require Import ZArith Lia Ascii.
From stdpp Require Import gmap strings list fin_maps sorting pretty.

Local Open Scope string_scope.
Local Open Scope list_scope.
Local Open Scope nat_scope.

(* ===================================================================== *)
(** * Part I: the embedding                                               *)
(* ===================================================================== *)

(** ** Python string primitives *)

Module Py.

(** [c.isspace()], which is also the class [\s] of [re] and the one
    [split()] and [strip()] use: TAB..CR, FS..US, the blank, NEL
    (U+0085) and the no-break space (U+00A0). *)
Definition is_space (c : ascii) : bool :=
  let n := nat_of_ascii c in
  ((9 <=? n) && (n <=? 13)) || ((28 <=? n) && (n <=? 32))
  || (n =? 133) || (n =? 160).

(** [c.lower()]: A..Z and the capital letters U+00C0..U+00DE (the
    multiplication sign U+00D7 is not one) move up by 32. *)
Definition lower_char (c : ascii) : ascii :=
  let n := nat_of_ascii c in
  if ((65 <=? n) && (n <=? 90))
     || ((192 <=? n) && (n <=? 222) && negb (n =? 215))
  then ascii_of_nat (n + 32) else c.

(** [s.lower()] *)
Fixpoint lower (s : string) : string :=
  match s with
  | "" => ""
  | String c s' => String (lower_char c) (lower s')
  end.

(** [s.startswith(p)] *)
Definition startswith (p s : string) : bool := String.prefix p s.

(** [p in s] *)
Fixpoint contains (p s : string) : bool :=
  match s with
  | "" => String.prefix p ""
  | String _ s' => String.prefix p s || contains p s'
  end.

(** [s.split()]: maximal runs of non-blank characters.  [cur] is the
    word being read, most recent character first. *)
Fixpoint split_go (cur : string) (s : string) : list string :=
  match s with
  | "" => if decide (cur = "") then [] else [String.rev cur]
  | String a s' =>
      if is_space a
      then (if decide (cur = "") then [] else [String.rev cur]) ++ split_go "" s'
      else split_go (String a cur) s'
  end.
Definition split (s : string) : list string := split_go "" s.

Fixpoint lstrip (s : string) : string :=
  match s with
  | "" => ""
  | String a s' => if is_space a then lstrip s' else s
  end.
Definition rstrip (s : string) : string := String.rev (lstrip (String.rev s)).
(** [s.strip()] *)
Definition strip (s : string) : string := rstrip (lstrip s).

(** The string is empty or holds blanks only. *)
Fixpoint all_space (s : string) : bool :=
  match s with
  | "" => true
  | String a s' => is_space a && all_space s'
  end.

(** [sep.join(l)] *)
Fixpoint join (sep : string) (l : list string) : string :=
  match l with
  | [] => ""
  | [x] => x
  | x :: l' => x +:+ sep +:+ join sep l'
  end.

(** [s[:n]] for [n >= 0] *)
Fixpoint str_take (n : nat) (s : string) : string :=
  match n, s with
  | S n', String a s' => String a (str_take n' s')
  | _, _ => ""
  end.

(** [l[-n:]] for a positive [n]: the last [n] elements, the whole list
    when it is shorter. *)
Definition last_n {A} (n : nat) (l : list A) : list A := drop (length l - n) l.

(** [range(0, n, step)]: [None] stands for the [ValueError] of a zero
    step; a negative step gives the empty range. *)
Definition range_step (n : nat) (step : Z) : option (list nat) :=
  if decide (step = 0)%Z then None
  else if decide (step < 0)%Z then Some []
  else let k := Z.to_nat step in
       Some ((λ j, j * k) <$> seq 0 ((n + k - 1) / k)).

(** Values stored in metadata dictionaries. *)
Inductive value := VStr (s : string) | VInt (z : Z).

#[global] Instance value_eq_dec : EqDecision value.
Proof. solve_decision. Defined.

(** [f"{v}"] *)
Definition str (v : value) : string :=
  match v with VStr s => s | VInt z => pretty z end.

(** The result of a call that may raise. *)
Inductive outcome (A : Type) := Returned (a : A) | Raised (what : string).
Arguments Returned {A} a.
Arguments Raised {A} what.

(** An iteration order for Python sets: [list(set(l))] enumerates each
    element once, in an order the language leaves open. *)
Record SetOrder := {
  set_to_list : gset string → list string;
  set_to_list_perm : ∀ s, set_to_list s ≡ₚ elements s
}.

End Py.

Abbreviation dict := (gmap string Py.value).

(** ** Configuration constants ([config.py], [core/doc_config.py]) *)

Module Config.
Definition CHUNK_SIZE : nat := 1000.
Definition CHUNK_OVERLAP : nat := 200.
Definition CONTEXT_CHUNKS : Z := 5.
Definition MAX_PAGES : nat := 25.
Definition MAX_CONTENT_LENGTH : nat := 10000.
Definition MAX_CHAT_HISTORY : nat := 20.
End Config.

Module DocConfig.
Definition DOC_CHUNK_SIZE : nat := 300.
Definition DOC_CHUNK_OVERLAP : nat := 60.
Definition DOC_CONTEXT_CHUNKS : Z := 5.
Definition DOC_MAX_CHAT_HISTORY : nat := 20.
End DocConfig.

(** ** The vector database

    A collection maps record ids to the stored document text and its
    metadata; the embedding of a record is a function of its text, so
    only the distance between a query and a stored text is kept, as a
    field of the environment.  A client maps collection names to
    collections. *)

Module Chroma.
Import Py.

Record record := { document : string; metadata : dict }.

Abbreviation collection := (gmap string record).
Abbreviation client := (gmap string (gmap string record)).

(** What [add] does with an id the collection already holds: the
    releases that offer [PersistentClient] skip the record and log a
    warning, older ones raise.  Every property below that depends on
    it is proved for both. *)
Inductive dup_policy := SkipExisting | RaiseOnExisting.

(** [collection.count()] *)
Definition count (c : collection) : nat := size c.

(** [collection.add(ids=.., documents=.., metadatas=..)]: an empty
    batch and a batch with a repeated id are refused; records are
    stored under ids that are free. *)
Definition add (pol : dup_policy) (batch : list (string * record))
    (c : collection) : option collection :=
  if decide (batch = []) then None
  else if decide (NoDup batch.*1) then
    match pol with
    | SkipExisting => Some (c ∪ list_to_map batch)
    | RaiseOnExisting =>
        if decide (Forall (λ i, c !! i = None) batch.*1)
        then Some (c ∪ list_to_map batch) else None
    end
  else None.

(** [collection.query(.., n_results=n)]: the [n] records nearest to
    the query; a count that is not positive is refused. *)
Definition nearer (distance : string → string → Z) (q : string)
    (a b : string * record) : Prop :=
  (distance q (document a.2) ≤ distance q (document b.2))%Z.

#[global] Instance nearer_dec distance q : RelDecision (nearer distance q).
Proof. intros a b. unfold nearer. apply _. Defined.

Definition query (distance : string → string → Z) (q : string) (n : Z)
    (c : collection) : option (list (string * record)) :=
  if decide (n ≤ 0)%Z then None
  else Some (take (Z.to_nat n) (merge_sort (nearer distance q) (map_to_list c))).

(** [client.delete_collection(name)], [None] when there is none. *)
Definition delete_collection (name : string) (cl : client) : option client :=
  match cl !! name with
  | Some _ => Some (delete name cl)
  | None => None
  end.

(** [client.create_collection(name)], [None] when the name is taken. *)
Definition create_collection (name : string) (cl : client) : option client :=
  match cl !! name with
  | Some _ => None
  | None => Some (<[name := ∅]> cl)
  end.

End Chroma.

(** ** What the pipeline takes from outside the repository *)

Record Env := {
  (** Python's [hash] on strings *)
  py_hash : string → Z;
  (** [json.dumps] on a list of strings *)
  json_dumps : list string → string;
  (** distance between the embeddings of a query and of a stored text *)
  distance : string → string → Z;
  (** how the vector database treats an id it already holds *)
  dup : Chroma.dup_policy;
  (** [hashlib.md5(..).hexdigest()] *)
  md5_hex : string → string;
  (** [datetime.now().isoformat()] *)
  now_iso : string
}.

(** ** Pages, chunks and crawl results *)

(** The dictionary built by [extract_content]. *)
Record page := {
  url : string;
  title : string;
  content : string;
  headings : list string;
  word_count : nat;
  content_hash : string;
  timestamp : string
}.

(** [{'text': .., 'metadata': ..}] *)
Record chunk := { text : string; chunk_metadata : dict }.

(** The ['sync_info'] entry of a crawl result: absent (specific-URL
    crawls), the empty dictionary (domain crawls outside sync mode) or
    the change lists. *)
Inductive sync_info :=
| NoSyncKey
| EmptySyncInfo
| SyncInfo (updated_pages new_pages : list string) (total_changes : nat).

Record domain_data := {
  domain : option string;
  urls : list string;
  pages : list page;
  failed_urls : list string;
  total_pages : nat;
  crawl_date : string;
  sync : sync_info
}.

(** ** Chunking of crawled content ([EnhancedContentProcessor.create_chunks]) *)

Module Chunker.
Import Py.

Definition create_chunks (chunk_size chunk_overlap : nat)
    (content : string) (metadata : dict) : option (list chunk) :=
  let words := split content in
  starts ← range_step (length words) (Z.of_nat chunk_size - Z.of_nat chunk_overlap);
  Some (foldl (λ chunks i,
          let chunk_words := take chunk_size (drop i words) in
          let chunk_metadata :=
            <["chunk_size" := VInt (Z.of_nat (length chunk_words))]>
              (<["chunk_index" := VInt (Z.of_nat (length chunks))]> metadata) in
          chunks ++ [ {| text := join " " chunk_words;
                         chunk_metadata := chunk_metadata |} ])
        [] starts).

End Chunker.

(** ** Chunking of uploaded documents ([DocumentProcessor.chunk_text])

    The splitter is the token-window splitter of the text-splitting
    library the repository configures with [DOC_CHUNK_SIZE] and
    [DOC_CHUNK_OVERLAP]; its tokenizer is a parameter. *)

Module DocChunker.
Import Py.

Record Tokenizer := {
  token : Type;
  encode : string → list token;
  decode : list token → string
}.

(** The library's window loop: a window of [size] tokens starting at
    [start], then the start moves on by [size - overlap] until the
    window reaches the end of the token list. *)
Fixpoint windows {T} (fuel size step : nat) (ids : list T) (start : nat)
    : list (list T) :=
  match fuel with
  | 0 => []
  | S fuel' =>
      if decide (start < length ids) then
        let cur := Nat.min (start + size) (length ids) in
        take (cur - start) (drop start ids) ::
          (if decide (cur = length ids) then []
           else windows fuel' size step ids (start + step))
      else []
  end.

Definition split_text (tk : Tokenizer) (size overlap : nat) (text : string)
    : list string :=
  let ids := encode tk text in
  decode tk <$> windows (length ids) size (size - overlap) ids 0.

Definition chunk_text (tk : Tokenizer) (size overlap : nat) (text : string)
    : list string :=
  if decide (strip text = "") then []
  else split_text tk size overlap text.

End DocChunker.

(** ** The domain processor ([EnhancedContentProcessor]) *)

Module Processor.
Import Py.

(** [self.domain_metadata] once it is filled in. *)
Record domain_meta := {
  md_domain : string;
  md_last_crawl : string;
  md_total_pages : nat
}.

(** The processor holds the database client, the name of the
    collection it currently refers to and the metadata of the last
    processed crawl. *)
Record processor := {
  chroma_client : Chroma.client;
  collection : option string;
  domain_metadata : option domain_meta
}.

Definition domain_key (dd : domain_data) : string :=
  default "multiple-urls" (domain dd).

Definition collection_name (env : Env) (dd : domain_data) : string :=
  "domain_" +:+ pretty ((Z.abs (py_hash env (domain_key dd)) mod 1000000)%Z).

Definition page_metadata (env : Env) (pg : page) : dict :=
  <["timestamp" := VStr (timestamp pg)]>
  (<["content_hash" := VStr (content_hash pg)]>
  (<["word_count" := VInt (Z.of_nat (word_count pg))]>
  (<["headings" := VStr (json_dumps env (headings pg))]>
  (<["title" := VStr (title pg)]>
  (<["url" := VStr (url pg)]> ∅))))).

(** The loop over [domain_data['pages']]; [None] when a
    [create_chunks] call raises. *)
Fixpoint all_chunks_of (env : Env) (pgs : list page) : option (list chunk) :=
  match pgs with
  | [] => Some []
  | pg :: rest =>
      chunks ← Chunker.create_chunks Config.CHUNK_SIZE Config.CHUNK_OVERLAP
                 (content pg) (page_metadata env pg);
      more ← all_chunks_of env rest;
      Some (chunks ++ more)
  end.

Definition chunk_id (n : nat) : string := "chunk_" +:+ pretty n.

(** The [ids] comprehension zipped with the documents and metadatas. *)
Definition batch_of (offset : nat) (chunks : list chunk)
    : list (string * Chroma.record) :=
  imap (λ i ch, (chunk_id (i + offset),
                 {| Chroma.document := text ch;
                    Chroma.metadata := chunk_metadata ch |})) chunks.

(** The collection chosen at the start of [process_domain_data]:
    deleted (when present) and created afresh outside sync mode,
    fetched (created when missing) in sync mode. *)
Definition open_collection (name : string) (sync_mode : bool)
    (cl : Chroma.client) : option Chroma.client :=
  if sync_mode then
    match cl !! name with
    | Some _ => Some cl
    | None => Chroma.create_collection name cl
    end
  else
    Chroma.create_collection name
      (default cl (Chroma.delete_collection name cl)).

Definition process_domain_data (env : Env) (dd : domain_data)
    (sync_mode : bool) (p : processor) : processor * outcome string :=
  let name := collection_name env dd in
  match open_collection name sync_mode (chroma_client p) with
  | None => (p, Raised "create_collection")
  | Some cl =>
      let p1 := {| chroma_client := cl;
                   collection := Some name;
                   domain_metadata :=
                     Some {| md_domain := domain_key dd;
                             md_last_crawl := crawl_date dd;
                             md_total_pages := total_pages dd |} |} in
      match all_chunks_of env (pages dd) with
      | None => (p1, Raised "ValueError")
      | Some all_chunks =>
          let stored :=
            if decide (all_chunks = []) then Some cl
            else
              c ← cl !! name;
              c' ← Chroma.add (dup env)
                     (batch_of (if sync_mode then Chroma.count c else 0) all_chunks) c;
              Some (<[name := c']> cl) in
          match stored with
          | None => (p1, Raised "add")
          | Some cl' =>
              let p2 := {| chroma_client := cl';
                           collection := Some name;
                           domain_metadata := domain_metadata p1 |} in
              match sync_mode, sync dd with
              | true, EmptySyncInfo => (p2, Raised "KeyError")
              | _, _ => (p2, Returned name)
              end
          end
      end
  end.

(** [count()] of the collection stored under a name. *)
Definition count_of (p : processor) (name : string) : option nat :=
  Chroma.count <$> chroma_client p !! name.

(** The record stored for a chunk. *)
Definition record_of (ch : chunk) : Chroma.record :=
  {| Chroma.document := text ch; Chroma.metadata := chunk_metadata ch |}.

(** One entry of the list returned by [search_similar_content]. *)
Record hit := { hit_text : string; hit_metadata : dict; hit_distance : Z }.

Definition search_similar_content (env : Env) (query : string) (n_results : Z)
    (p : processor) : outcome (list hit) :=
  match collection p with
  | None => Returned []
  | Some name =>
      match chroma_client p !! name with
      | None => Raised "count"
      | Some c =>
          let actual_count := Z.of_nat (Chroma.count c) in
          let n_results_adjusted := Z.min n_results actual_count in
          if decide (n_results_adjusted = 0)%Z then Returned []
          else
            match Chroma.query (distance env) query n_results_adjusted c with
            | None => Raised "query"
            | Some results =>
                Returned ((λ r, {| hit_text := Chroma.document r.2;
                                   hit_metadata := Chroma.metadata r.2;
                                   hit_distance :=
                                     distance env query (Chroma.document r.2) |})
                          <$> results)
            end
      end
  end.

End Processor.

(** ** The document vector store ([DocumentVectorStore]) *)

Module DocStore.
Import Py.

Record doc_store := { session_id : string; store : Chroma.collection }.

Definition doc_id (sid : string) (i : nat) (file_name : value) : string :=
  "doc_" +:+ sid +:+ "_" +:+ pretty i +:+ "_" +:+ str file_name.

(** The [enumerate] loop of [upsert_chunks] from position [i] on: one
    [add] per chunk; the first call that raises ends the loop and
    keeps what was stored before it. *)
Fixpoint upsert_from (pol : Chroma.dup_policy) (sid : string) (i : nat)
    (docs : list chunk) (c : Chroma.collection)
    : Chroma.collection * outcome unit :=
  match docs with
  | [] => (c, Returned ())
  | doc :: rest =>
      match chunk_metadata doc !! "file_name" with
      | None => (c, Raised "KeyError")
      | Some fname =>
          match Chroma.add pol
                  [(doc_id sid i fname,
                    {| Chroma.document := text doc;
                       Chroma.metadata := chunk_metadata doc |})] c with
          | None => (c, Raised "add")
          | Some c' => upsert_from pol sid (S i) rest c'
          end
      end
  end.

Definition upsert_chunks (env : Env) (docs : list chunk) (ds : doc_store)
    : doc_store * outcome unit :=
  let r := upsert_from (dup env) (session_id ds) 0 docs (store ds) in
  ({| session_id := session_id ds; store := r.1 |}, r.2).

Definition similarity_search (env : Env) (query : string) (top_k : option Z)
    (ds : doc_store) : outcome (list (string * dict)) :=
  let top_k := default DocConfig.DOC_CONTEXT_CHUNKS top_k in
  let actual_count := Z.of_nat (Chroma.count (store ds)) in
  let top_k := Z.min top_k actual_count in
  if decide (top_k = 0)%Z then Returned []
  else
    match Chroma.query (distance env) query top_k (store ds) with
    | None => Raised "query"
    | Some results =>
        Returned ((λ r, (Chroma.document r.2, Chroma.metadata r.2)) <$> results)
    end.

End DocStore.

(** ** Bounded chat histories *)

Module History.
Import Py.

Record message := { role : string; msg_content : string }.

Definition turn (user_message assistant_message : string) : list message :=
  [ {| role := "user"; msg_content := user_message |};
    {| role := "assistant"; msg_content := assistant_message |} ].

(** [LlamaCppAnalyzer.add_to_history] *)
Definition add_to_history (chat_history : list message)
    (user_message assistant_message : string) : list message :=
  let chat_history := chat_history ++ turn user_message assistant_message in
  if decide (Config.MAX_CHAT_HISTORY * 2 < length chat_history)
  then last_n (Config.MAX_CHAT_HISTORY * 2) chat_history
  else chat_history.

(** [DocumentGroqAnalyzer._add_turn] *)
Definition _add_turn (chat_history : list message)
    (user_msg assistant_msg : string) : list message :=
  let chat_history := chat_history ++ turn user_msg assistant_msg in
  let max_len := DocConfig.DOC_MAX_CHAT_HISTORY * 2 in
  last_n max_len chat_history.

(** The messages of a sequence of turns, oldest first. *)
Definition messages_of (turns : list (string * string)) : list message :=
  turns ≫= (λ t, turn t.1 t.2).

(** The history after appending the turns one by one, for the domain
    chat and for the document chat. *)
Definition domain_history (start : list message) (turns : list (string * string))
    : list message :=
  foldl (λ h t, add_to_history h t.1 t.2) start turns.

Definition document_history (start : list message) (turns : list (string * string))
    : list message :=
  foldl (λ h t, _add_turn h t.1 t.2) start turns.

End History.

(** ** The crawler ([EnhancedDomainCrawler]) *)

(** What the HTML parser finds in a document: the text of the first
    [title] element, the text of the main-content element (the body as
    a fallback) and the texts of the headings. *)
Record soup := {
  soup_title : option string;
  soup_main : string;
  soup_headings : list string
}.

(** The network and the HTML and URL libraries.  A web is fixed for the
    duration of a crawl. *)
Record Web := {
  (** [urlparse(u).netloc], [None] when parsing raises *)
  urlparse_netloc : string → option string;
  (** [fetch_html(u)[0]]: the empty string when every strategy failed *)
  fetch_html : string → string;
  (** [[urljoin(base, a['href']) for a in soup.find_all('a', href=True)]]
      on the document fetched from [base], [None] when that raises *)
  soup_links : string → string → option (list string);
  (** the parse of a document, [None] when extraction raises *)
  parse_html : string → option soup
}.

Module Crawler.
Import Py.

Record crawler := {
  visited_urls : gset string;
  last_crawl_hashes : gmap string string
}.

Definition skip_patterns : list string :=
  [ "login"; "register"; "cart"; "checkout"; "admin";
    "wp-admin"; "wp-content"; ".pdf"; ".jpg"; ".png"; ".gif";
    "privacy"; "terms"; "cookie"; "legal"; "#"; "javascript:" ].

Definition is_valid_url (w : Web) (url base_domain : string) : bool :=
  match urlparse_netloc w url, urlparse_netloc w base_domain with
  | Some netloc, Some base_netloc =>
      if decide (netloc ≠ base_netloc) then false
      else negb (existsb (λ pattern, contains pattern (lower url)) skip_patterns)
  | _, _ => false
  end.

(** [re.sub(r'\s+', ' ', s).strip()] *)
Definition normalize_ws (s : string) : string := join " " (split s).

Definition extract_content (env : Env) (w : Web) (html url : string)
    : option page :=
  sp ← parse_html w html;
  let title := from_option strip "No Title" (soup_title sp) in
  let main_content := str_take Config.MAX_CONTENT_LENGTH (normalize_ws (soup_main sp)) in
  Some {| url := url;
          title := title;
          content := main_content;
          headings := strip <$> soup_headings sp;
          word_count := length (split main_content);
          content_hash := md5_hex env main_content;
          timestamp := now_iso env |}.

Definition priority_keywords : list string :=
  [ "about"; "service"; "product"; "solution"; "team";
    "contact"; "portfolio"; "work"; "case-study"; "blog";
    "news"; "career"; "job"; "pricing"; "plan" ].

(** The two ranking loops of [discover_pages]. *)
Definition prioritize (links : list string) : list string :=
  let prioritized :=
    foldl (λ prioritized keyword,
      foldl (λ prioritized link,
        if contains keyword (lower link) && negb (bool_decide (link ∈ prioritized))
        then prioritized ++ [link] else prioritized)
        prioritized links)
      [] priority_keywords in
  foldl (λ prioritized link,
    if negb (bool_decide (link ∈ prioritized))
    then prioritized ++ [link] else prioritized)
    prioritized links.

(** A link matches a keyword; a link matches some keyword. *)
Definition matches (keyword link : string) : bool := contains keyword (lower link).

Definition has_keyword (link : string) : bool :=
  existsb (λ keyword, matches keyword link) priority_keywords.

(** The links that match a keyword, keyword by keyword in the order of
    the keyword list, each group in the order of the page. *)
Definition by_keyword (links : list string) : list string :=
  priority_keywords ≫= (λ keyword, filter (λ link, matches keyword link = true) links).

(** A list without its repeats: every element stays where it first
    occurs. *)
Fixpoint first_occurrences (l : list string) : list string :=
  match l with
  | [] => []
  | x :: l' => x :: filter (λ y, y ≠ x) (first_occurrences l')
  end.

(** [urls_to_crawl] as it stands before the final [list(set(..))]. *)
Definition urls_to_crawl (w : Web) (domain : string) : list string :=
  [domain] ++
  match soup_links w domain (fetch_html w domain) with
  | None => []
  | Some links =>
      let links := filter (λ url, is_valid_url w url domain = true) links in
      take (Config.MAX_PAGES - 1) (prioritize links)
  end.

Definition discover_pages (o : SetOrder) (w : Web) (domain : string)
    : list string :=
  set_to_list o (list_to_set (urls_to_crawl w domain)).

(** The accumulators of [crawl_domain]. *)
Record crawl_acc := {
  crawled_data : list page;
  updated : list string;
  new : list string
}.

Definition html_unusable (html : string) : bool :=
  bool_decide (html = "") || (String.length html <? 100).

(** One iteration of the loop of [crawl_domain]. *)
Definition crawl_step (env : Env) (w : Web) (sync_mode : bool)
    (st : crawler * crawl_acc) (url : string) : crawler * crawl_acc :=
  let '(cr, acc) := st in
  let html := fetch_html w url in
  if html_unusable html then st
  else
    match extract_content env w html url with
    | None => st
    | Some content =>
        let '(hashes, acc') :=
          if decide (50 < word_count content) then
            (<[url := content_hash content]> (last_crawl_hashes cr),
             {| crawled_data := crawled_data acc ++ [content];
                updated :=
                  if sync_mode then
                    match last_crawl_hashes cr !! url with
                    | Some h =>
                        if decide (h ≠ content_hash content)
                        then updated acc ++ [url] else updated acc
                    | None => updated acc
                    end
                  else updated acc;
                new :=
                  if sync_mode then
                    match last_crawl_hashes cr !! url with
                    | Some _ => new acc
                    | None => new acc ++ [url]
                    end
                  else new acc |})
          else (last_crawl_hashes cr, acc) in
        ({| visited_urls := {[url]} ∪ visited_urls cr;
            last_crawl_hashes := hashes |}, acc')
    end.

(** The page a URL contributes to a crawl, if any: its document is
    usable, extraction goes through and the content has more than 50
    words. *)
Definition accepted (env : Env) (w : Web) (url : string) : option page :=
  let html := fetch_html w url in
  if html_unusable html then None
  else
    content ← extract_content env w html url;
    if decide (50 < word_count content) then Some content else None.

Definition crawl_loop (env : Env) (w : Web) (sync_mode : bool)
    (urls : list string) (cr : crawler) : crawler * crawl_acc :=
  foldl (crawl_step env w sync_mode)
        (cr, {| crawled_data := []; updated := []; new := [] |}) urls.

Definition crawl_domain (env : Env) (o : SetOrder) (w : Web)
    (domain : string) (sync_mode : bool) (cr : crawler)
    : crawler * domain_data :=
  let urls := discover_pages o w domain in
  let '(cr', acc) := crawl_loop env w sync_mode urls cr in
  (cr',
   {| domain := Some domain;
      urls := [];
      pages := crawled_data acc;
      failed_urls := [];
      total_pages := length (crawled_data acc);
      crawl_date := now_iso env;
      sync :=
        if sync_mode
        then SyncInfo (updated acc) (new acc) (length (updated acc) + length (new acc))
        else EmptySyncInfo |}).

(** The scheme test and prefix of [crawl_specific_urls]. *)
Definition with_scheme (url : string) : string :=
  if startswith "http://" url || startswith "https://" url
  then url else "https://" +:+ url.

(** One iteration of the loop of [crawl_specific_urls] on the lists
    [crawled] and [failed]. *)
Definition specific_step (env : Env) (w : Web)
    (st : list page * list string) (url : string) : list page * list string :=
  let '(crawled, failed) := st in
  let url := with_scheme url in
  let html := fetch_html w url in
  if html_unusable html then (crawled, failed ++ [url])
  else
    match extract_content env w html url with
    | None => (crawled, failed ++ [url])
    | Some content =>
        if decide (50 < word_count content)
        then (crawled ++ [content], failed)
        else (crawled, failed)
    end.

Definition crawl_specific_urls (env : Env) (w : Web) (urls : list string)
    : domain_data :=
  let '(crawled, failed) := foldl (specific_step env w) ([], []) urls in
  {| domain := Some "multiple-urls";
     urls := urls;
     pages := crawled;
     failed_urls := failed;
     total_pages := length crawled;
     crawl_date := now_iso env;
     sync := NoSyncKey |}.

End Crawler.

(** ** The session analyzer ([EnhancedDomainAnalyzer])

    The record keeps the crawler, the processor and the two fields that
    [sync_domain] reads; the chat histories are modelled in [History],
    the text of the generated summary and report is not modelled. *)

Module Analyzer.
Import Py.

Record analyzer := {
  crawler : Crawler.crawler;
  processor : Processor.processor;
  current_domain_data : option domain_data;
  current_domain : option string
}.

(** The state set up by [/api/initialize]: an empty session collection
    named after the session. *)
Definition initialize (session_collection_name : string)
    (cl : Chroma.client) : analyzer :=
  {| crawler := {| Crawler.visited_urls := ∅; Crawler.last_crawl_hashes := ∅ |};
     processor :=
       {| Processor.chroma_client :=
            match cl !! session_collection_name with
            | Some _ => cl
            | None => <[session_collection_name := ∅]> cl
            end;
          Processor.collection := Some session_collection_name;
          Processor.domain_metadata := None |};
     current_domain_data := None;
     current_domain := Some session_collection_name |}.

Definition newline : string := String "010" "".

(** The state changes of [analyze_domain] and the branch it takes:
    [Returned true] when the analysis went through, [Returned false]
    for the error string of an empty crawl. *)
Definition analyze_domain (env : Env) (o : SetOrder) (w : Web)
    (domain : string) (a : analyzer) : analyzer * outcome bool :=
  let domain := Crawler.with_scheme domain in
  let '(cr, dd) := Crawler.crawl_domain env o w domain false (crawler a) in
  let a1 := {| crawler := cr; processor := processor a;
               current_domain_data := Some dd;
               current_domain := current_domain a |} in
  if decide (pages dd = []) then (a1, Returned false)
  else
    match Processor.process_domain_data env dd false (processor a) with
    | (p, Raised e) =>
        ({| crawler := cr; processor := p;
            current_domain_data := Some dd;
            current_domain := current_domain a |}, Raised e)
    | (p, Returned name) =>
        ({| crawler := cr; processor := p;
            current_domain_data := Some dd;
            current_domain := Some name |}, Returned true)
    end.

(** The same for [analyze_specific_urls]. *)
Definition analyze_specific_urls (env : Env) (w : Web)
    (urls : list string) (a : analyzer) : analyzer * outcome bool :=
  let cleaned := strip <$> filter (λ u, strip u ≠ "") urls in
  if decide (cleaned = []) then (a, Returned false)
  else
    let crawl_data := Crawler.crawl_specific_urls env w cleaned in
    let a1 := {| crawler := crawler a; processor := processor a;
                 current_domain_data := Some crawl_data;
                 current_domain := current_domain a |} in
    if decide (pages crawl_data = []) then (a1, Returned false)
    else
      match Processor.process_domain_data env crawl_data false (processor a) with
      | (p, Raised e) =>
          ({| crawler := crawler a; processor := p;
              current_domain_data := Some crawl_data;
              current_domain := current_domain a |}, Raised e)
      | (p, Returned name) =>
          ({| crawler := crawler a; processor := p;
              current_domain_data := Some crawl_data;
              current_domain := Some name |}, Returned true)
      end.

(** [count()] of the collection the session currently refers to. *)
Definition domain_count (a : analyzer) : option nat :=
  name ← current_domain a; Processor.count_of (processor a) name.

Definition total_changes_of (dd : domain_data) : nat :=
  match sync dd with
  | SyncInfo _ _ n => n
  | _ => 0
  end.

(** What [sync_domain] did: turned the request down with a message,
    or went on to a sync crawl and returned a message. *)
Inductive sync_result :=
| Rejected (message : string)
| Crawled (message : string).

Definition sync_domain (env : Env) (o : SetOrder) (w : Web) (a : analyzer)
    : analyzer * sync_result :=
  match current_domain a with
  | None | Some "" => (a, Rejected "Error: No domain analyzed yet.")
  | Some current =>
      if startswith "session_chroma_" current then
        (a, Rejected "Error: Sync is not supported for uploaded files. Re-upload to update.")
      else
        let original_domain_string :=
          Processor.md_domain <$> Processor.domain_metadata (processor a) in
        match original_domain_string with
        | None | Some "" =>
            (a, Rejected "Error: Sync is only supported for crawled domains, not uploaded files or multiple URLs.")
        | Some original =>
            if startswith "uploads:" original then
              (a, Rejected "Error: Sync is only supported for crawled domains, not uploaded files or multiple URLs.")
            else
              let '(cr, dd) := Crawler.crawl_domain env o w original true (crawler a) in
              match Processor.process_domain_data env dd true (processor a) with
              | (p, Raised e) =>
                  ({| crawler := cr; processor := p;
                      current_domain_data := current_domain_data a;
                      current_domain := current_domain a |},
                   Crawled ("Error: Sync failed: " +:+ e))
              | (p, Returned _) =>
                  ({| crawler := cr; processor := p;
                      current_domain_data := Some dd;
                      current_domain := current_domain a |},
                   Crawled ("Success: Sync completed." +:+ newline +:+
                            pretty (total_changes_of dd) +:+ " pages changed."))
              end
        end
  end.

End Analyzer.

(** ** A small concrete world

    One environment and one web, used to run the model on concrete
    inputs: a site [https://example.com] whose home page links to a
    blog, an about page, a FAQ, a login page and a foreign host, and a
    page [https://short.example] that is served but holds two words. *)

Module Example.
Import Py.

Definition env (pol : Chroma.dup_policy) : Env :=
  {| py_hash := λ s, Z.of_nat (String.length s);
     json_dumps := λ l, "[" +:+ join ", " l +:+ "]";
     distance := λ q d, Z.abs (Z.of_nat (String.length q) - Z.of_nat (String.length d));
     dup := pol;
     md5_hex := λ s, pretty (String.length s) +:+ ":" +:+ str_take 8 s;
     now_iso := "2025-01-01T00:00:00" |}.

(** Sixty times the same word: a text long enough to be stored. *)
Definition body (word : string) : string := join " " (replicate 60 word).

Definition html_of (main : string) : string :=
  "<html><head><title> Example </title></head><body><main>" +:+ main +:+
  "</main></body></html><!-- generated page of the example site -->".

Definition host_of (url : string) : string :=
  let rest :=
    if startswith "https://" url then String.substring 8 (String.length url) url
    else if startswith "http://" url then String.substring 7 (String.length url) url
    else "" in
  match String.index 0 "/" rest with
  | Some n => str_take n rest
  | None => rest
  end.

Definition site : list (string * string) :=
  [ ("https://example.com", body "home");
    ("https://example.com/blog", body "blog");
    ("https://example.com/about", body "about");
    ("https://example.com/faq", body "faq");
    ("https://example.com/admin", body "admin");
    ("https://short.example", "too short") ].

Definition web : Web :=
  {| urlparse_netloc := λ u, Some (host_of u);
     fetch_html := λ u,
       match list_find (λ e, e.1 = u) site with
       | Some (_, e) => html_of e.2
       | None => ""
       end;
     soup_links := λ base _,
       if decide (base = "https://example.com")
       then Some [ "https://example.com/blog"; "https://example.com/about";
                   "https://example.com/faq"; "https://example.com/login";
                   "https://other.org/about" ]
       else Some [];
     parse_html := λ html,
       match list_find (λ e, html_of e.2 = html) site with
       | Some (_, e) =>
           Some {| soup_title := Some " Example "; soup_main := e.2;
                   soup_headings := [] |}
       | None =>
           Some {| soup_title := None; soup_main := ""; soup_headings := [] |}
       end |}.

(** Two admissible iteration orders for sets. *)
Program Definition ascending : SetOrder :=
  {| set_to_list := λ s, merge_sort String.le (elements s) |}.
Next Obligation. intros s. apply merge_sort_Permutation. Qed.

Program Definition descending : SetOrder :=
  {| set_to_list := λ s, reverse (merge_sort String.le (elements s)) |}.
Next Obligation. intros s. rewrite reverse_Permutation. apply merge_sort_Permutation. Qed.

(** A tokenizer that takes the words of a text as its tokens. *)
Definition tokenizer : DocChunker.Tokenizer :=
  {| DocChunker.token := string;
     DocChunker.encode := split;
     DocChunker.decode := join " " |}.

(** A fresh session. *)
Definition session : Analyzer.analyzer :=
  Analyzer.initialize "session_chroma_0" ∅.

(** The session after the example site was analysed. *)
Definition analysed : Analyzer.analyzer :=
  (Analyzer.analyze_domain (env Chroma.SkipExisting) ascending web
     "example.com" session).1.

End Example.

(** ** Sessions ([api.py]) *)

Module Session.
Import Py.

(** [s.replace(old, new)] for single characters *)
Fixpoint replace_char (old new : ascii) (s : string) : string :=
  match s with
  | "" => ""
  | String a s' =>
      String (if decide (a = old) then new else a) (replace_char old new s')
  end.

(** [f"session_chroma_{session_id.replace('-', '_')}"] *)
Definition session_collection_name (session_id : string) : string :=
  "session_chroma_" +:+ replace_char "-" "_" session_id.

(** The analyzer that [/api/initialize] registers for a new session. *)
Definition new_session (session_id : string) (cl : Chroma.client)
    : Analyzer.analyzer :=
  Analyzer.initialize (session_collection_name session_id) cl.

End Session.

(** ** Uploaded files ([core/doc_processor.py])

    The file system and the document libraries are outside the
    repository: what they hand over is a field of [Files]. *)

(** [open(path, 'r', encoding=enc).read()]: the text, a
    [UnicodeDecodeError], or another exception. *)
Inductive read_result :=
| ReadOk (text : string)
| DecodeError
| ReadError (what : string).

Record Files := {
  (** [os.path.splitext(name)[1]] *)
  splitext_ext : string → string;
  (** [os.path.basename(path)] *)
  basename : string → string;
  (** [[para.text for para in Document(path).paragraphs]] *)
  docx_paragraphs : string → Py.outcome (list string);
  (** [[page.extract_text() for page in pdf.pages]] of
      [pdfplumber.open(path)] *)
  pdf_pages : string → Py.outcome (list (option string));
  (** [open(path, 'r', encoding=encoding).read()] *)
  open_read : string → string → read_result;
  (** [soup.get_text(separator=" ", strip=True)] of the parsed document
      without its [script] and [style] elements *)
  html_text : string → Py.outcome string
}.

Module DocProcessor.
Import Py.

Definition newline : string := String "010" "".

(** [s.split(":", 1)[1]]: what follows the first colon; [None] stands
    for the [IndexError] of a string without one. *)
Fixpoint after_colon (s : string) : option string :=
  match s with
  | "" => None
  | String a s' => if decide (a = ":"%char) then Some s' else after_colon s'
  end.

Definition _extract_docx_content_and_source (fs : Files) (file_path : string)
    : outcome (string * string) :=
  match docx_paragraphs fs file_path with
  | Raised e => Raised e
  | Returned paragraphs =>
      let lines := strip <$> filter (λ t, strip t ≠ "") paragraphs in
      match last lines with
      | None => Raised "ValueError"
      | Some source_line =>
          if negb (startswith "source:" (lower source_line)) then
            Returned (join newline lines, "file://" +:+ basename fs file_path)
          else
            match after_colon source_line with
            | None => Raised "IndexError"
            | Some rest =>
                Returned (join newline (take (length lines - 1) lines), strip rest)
            end
      end
  end.

Definition _extract_pdf_content_and_source (fs : Files)
    (file_path file_name : string) : outcome (string * string) :=
  match pdf_pages fs file_path with
  | Raised e => Raised e
  | Returned pages =>
      let content := join newline (default "" <$> pages) in
      if decide (strip content = "") then Raised "ValueError"
      else Returned (content, "file://" +:+ file_name)
  end.

(** The loop over the encodings: the first one that decodes the file;
    a [UnicodeDecodeError] moves on to the next, any other exception
    leaves the loop. *)
Fixpoint read_with (fs : Files) (file_path : string) (encodings : list string)
    : outcome (option string) :=
  match encodings with
  | [] => Returned None
  | encoding :: rest =>
      match open_read fs file_path encoding with
      | ReadOk html_content => Returned (Some html_content)
      | DecodeError => read_with fs file_path rest
      | ReadError e => Raised e
      end
  end.

Definition _extract_html_content_and_source (fs : Files)
    (file_path file_name : string) : outcome (string * string) :=
  match read_with fs file_path ["utf-8"; "latin-1"; "cp1252"; "iso-8859-1"] with
  | Raised e => Raised e
  | Returned None => Raised "ValueError"
  | Returned (Some html_content) =>
      match html_text fs html_content with
      | Raised e => Raised e
      | Returned content =>
          if decide (strip content = "") then Raised "ValueError"
          else Returned (content, "file://" +:+ file_name)
      end
  end.

Definition _extract_txt_content_and_source (fs : Files)
    (file_path file_name : string) : outcome (string * string) :=
  match open_read fs file_path "utf-8" with
  | ReadOk content =>
      if decide (strip content = "") then Raised "ValueError"
      else Returned (content, "file://" +:+ file_name)
  | DecodeError => Raised "UnicodeDecodeError"
  | ReadError e => Raised e
  end.

Definition extract_content_and_source (fs : Files) (file_path file_name : string)
    : outcome (string * string) :=
  let file_ext := lower (splitext_ext fs file_name) in
  if decide (file_ext = ".docx") then _extract_docx_content_and_source fs file_path
  else if decide (file_ext = ".pdf")
  then _extract_pdf_content_and_source fs file_path file_name
  else if decide (file_ext ∈ [".html"; ".htm"])
  then _extract_html_content_and_source fs file_path file_name
  else if decide (file_ext = ".txt")
  then _extract_txt_content_and_source fs file_path file_name
  else Raised "ValueError".

(** The list that [process_single_file] returns for the chunk texts of
    a file: one dictionary per chunk. *)
Definition chunk_dicts (chunks : list string)
    (source_url file_name file_path : string) : list chunk :=
  (λ c, {| text := c;
           chunk_metadata :=
             <["file_path" := VStr file_path]>
             (<["file_name" := VStr file_name]>
             (<["source_url" := VStr source_url]> ∅)) |}) <$> chunks.

Definition process_single_file (fs : Files) (tk : DocChunker.Tokenizer)
    (file_path file_name : string) : outcome (list chunk) :=
  match extract_content_and_source fs file_path file_name with
  | Raised e => Raised e
  | Returned (content, source_url) =>
      let chunks :=
        DocChunker.chunk_text tk DocConfig.DOC_CHUNK_SIZE DocConfig.DOC_CHUNK_OVERLAP
          content in
      Returned (chunk_dicts chunks source_url file_name file_path)
  end.

End DocProcessor.

(** Three text files: two with words, one that holds a no-break space
    and a blank. *)
Module ExampleFiles.

Definition files : Files :=
  {| splitext_ext := λ name,
       if decide (name = "a.txt") then ".txt"
       else if decide (name = "b.TXT") then ".TXT"
       else if decide (name = "blank.txt") then ".txt"
       else if decide (name = "notes.md") then ".md"
       else "";
     basename := λ path, path;
     docx_paragraphs := λ _, Py.Raised "PackageNotFoundError";
     pdf_pages := λ _, Py.Raised "FileNotFoundError";
     open_read := λ path _,
       if decide (path = "/tmp/a.txt") then ReadOk "one two three"
       else if decide (path = "/tmp/b.TXT") then ReadOk "four five"
       else if decide (path = "/tmp/blank.txt")
       then ReadOk (String "160" (String " " ""))
       else ReadError "FileNotFoundError";
     html_text := λ _, Py.Returned "" |}.

End ExampleFiles.


(** ** Notions used to state the properties of Part III *)

(** The string has no blank character. *)
Fixpoint no_space (s : string) : bool :=
  match s with
  | "" => true
  | String a s' => negb (Py.is_space a) && no_space s'
  end.

(** A word: not empty and without blanks. *)
Definition is_word (s : string) : Prop := s ≠ "" ∧ no_space s = true.

(** The decimal digits. *)
Definition is_digit (c : ascii) : bool :=
  let n := nat_of_ascii c in (48 <=? n) && (n <=? 57).

Fixpoint all_digits (s : string) : bool :=
  match s with
  | "" => true
  | String a s' => is_digit a && all_digits s'
  end.

(** The chunk that [create_chunks] builds at position [k] from the word
    list: the window of [chunk_size] words that starts at word
    [k * (chunk_size - chunk_overlap)]. *)
Definition window (chunk_size chunk_overlap : nat) (words : list string)
    (k : nat) : list string :=
  take chunk_size (drop (k * (chunk_size - chunk_overlap)) words).

Definition chunk_at (chunk_size chunk_overlap : nat) (words : list string)
    (metadata : dict) (k : nat) : chunk :=
  let chunk_words := window chunk_size chunk_overlap words k in
  {| text := Py.join " " chunk_words;
     chunk_metadata :=
       <["chunk_size" := Py.VInt (Z.of_nat (length chunk_words))]>
         (<["chunk_index" := Py.VInt (Z.of_nat k)]> metadata) |}.

(** The ids of a domain collection are [chunk_0], ..., [chunk_{count-1}]. *)
Definition dense_ids (c : gmap string Chroma.record) : Prop :=
  ∀ id, is_Some (c !! id) ↔ ∃ i, i < Chroma.count c ∧ id = Processor.chunk_id i.

(* ===================================================================== *)
(** * Part II: properties                                                 *)
(* ===================================================================== *)

(** ** Strings *)

Section py_facts.
Import Py.

Lemma split_go_nil cur s :
  split_go cur s = [] ↔ cur = "" ∧ all_space s = true.
Proof.
  revert cur. induction s as [|a s IH]; intros cur; simpl.
  - destruct (decide (cur = "")); naive_solver.
  - destruct (is_space a) eqn:Ha; simpl.
    + destruct (decide (cur = "")) as [->|Hne]; simpl.
      * rewrite IH. naive_solver.
      * split; [discriminate | naive_solver].
    + rewrite IH. split; [intros [? _]; discriminate | intros [_ ?]; discriminate].
Qed.

Lemma split_nil s : split s = [] ↔ all_space s = true.
Proof. unfold split. rewrite split_go_nil. naive_solver. Qed.

Lemma lstrip_empty s : lstrip s = "" ↔ all_space s = true.
Proof.
  induction s as [|a s IH]; simpl; [done|].
  destruct (is_space a); simpl; [done|]. split; discriminate.
Qed.

Lemma all_space_rev_app s acc :
  all_space (String.rev_app s acc) = all_space s && all_space acc.
Proof.
  revert acc. induction s as [|a s IH]; intros acc; simpl; [done|].
  rewrite IH. simpl. destruct (is_space a), (all_space s); done.
Qed.

Lemma all_space_rev s : all_space (String.rev s) = all_space s.
Proof. unfold String.rev. rewrite all_space_rev_app. simpl. apply andb_true_r. Qed.

Lemma rev_app_empty s acc : String.rev_app s acc = "" → s = "" ∧ acc = "".
Proof.
  revert acc. induction s as [|a s IH]; intros acc; simpl; [done|].
  intros [_ [=]]%IH.
Qed.

Lemma lstrip_all_space s : all_space (lstrip s) = true → lstrip s = "".
Proof.
  induction s as [|a s IH]; simpl; [done|].
  destruct (is_space a) eqn:Ha; [done|]. simpl. rewrite Ha. done.
Qed.

Lemma strip_empty s : strip s = "" ↔ all_space s = true.
Proof.
  unfold strip, rstrip. split.
  - intros H. apply rev_app_empty in H as [H _].
    apply lstrip_empty in H. rewrite all_space_rev in H.
    by apply lstrip_empty, lstrip_all_space.
  - intros H. apply lstrip_empty in H. by rewrite H.
Qed.



Lemma last_n_length {A} n (l : list A) : length (last_n n l) = Nat.min n (length l).
Proof. unfold last_n. rewrite length_drop. lia. Qed.

Lemma last_n_suffix {A} n (l : list A) : last_n n l `suffix_of` l.
Proof. apply suffix_drop. Qed.

Lemma last_n_all {A} n (l : list A) : length l ≤ n → last_n n l = l.
Proof. intros H. unfold last_n. by replace (length l - n) with 0 by lia. Qed.

End py_facts.


(** ** Chunking *)

Section chunking.
Import Py.

Lemma fmap_nil_iff {A B} (f : A → B) (l : list A) : f <$> l = [] ↔ l = [].
Proof. split; [apply fmap_nil_inv | by intros ->]. Qed.

Lemma foldl_snoc_length {A B} (f : list B → A → B) (l : list A) (acc : list B) :
  length (foldl (λ acc x, acc ++ [f acc x]) acc l) = length acc + length l.
Proof.
  revert acc. induction l as [|x l IH]; intros acc; simpl; [lia|].
  rewrite IH, length_app. simpl. lia.
Qed.

Lemma range_step_pos n step :
  (0 < step)%Z →
  ∃ starts, range_step n step = Some starts ∧ (starts = [] ↔ n = 0).
Proof.
  intros Hstep. unfold range_step.
  destruct (decide (step = 0)%Z); [lia|].
  destruct (decide (step < 0)%Z); [lia|].
  eexists; split; [done|].
  assert (0 < Z.to_nat step) as Hk by lia.
  set (k := Z.to_nat step) in *.
  rewrite fmap_nil_iff. split.
  - intros Hseq. apply (f_equal length) in Hseq. rewrite length_seq in Hseq.
    simpl in Hseq. apply Nat.div_small_iff in Hseq; lia.
  - intros ->. replace (0 + k - 1) with (k - 1) by lia.
    rewrite Nat.div_small; [done | lia].
Qed.

Lemma create_chunks_total chunk_size chunk_overlap content metadata :
  chunk_overlap < chunk_size →
  ∃ chunks,
    Chunker.create_chunks chunk_size chunk_overlap content metadata = Some chunks
    ∧ (chunks = [] ↔ all_space content = true).
Proof.
  intros Hvalid. unfold Chunker.create_chunks.
  destruct (range_step_pos (length (split content))
              (Z.of_nat chunk_size - Z.of_nat chunk_overlap)) as (starts & -> & Hnil);
    [lia|].
  simpl. eexists; split; [done|].
  rewrite <- split_nil, <- length_zero_iff_nil.
  rewrite (foldl_snoc_length (λ chunks i, {| text := _; chunk_metadata := _ |})).
  simpl. rewrite <- (length_zero_iff_nil (split content)).
  rewrite <- Hnil, <- length_zero_iff_nil. done.
Qed.

Lemma windows_nonempty {T} fuel size step (ids : list T) :
  0 < fuel → ids ≠ [] → DocChunker.windows fuel size step ids 0 ≠ [].
Proof.
  intros Hfuel Hids. destruct fuel as [|fuel]; [lia|]. simpl.
  destruct (decide (0 < length ids)) as [|Hlen]; [done|].
  destruct ids; [done | simpl in Hlen; lia].
Qed.

Lemma chunk_text_blank tk size overlap text :
  all_space text = true → DocChunker.chunk_text tk size overlap text = [].
Proof.
  intros H%strip_empty. unfold DocChunker.chunk_text.
  by destruct (decide (strip text = "")).
Qed.

Lemma chunk_text_nonblank tk size overlap text :
  all_space text = false →
  DocChunker.encode tk text ≠ [] →
  DocChunker.chunk_text tk size overlap text ≠ [].
Proof.
  intros Hns Henc. unfold DocChunker.chunk_text.
  destruct (decide (strip text = "")) as [Hs%strip_empty|_]; [congruence|].
  unfold DocChunker.split_text. rewrite fmap_nil_iff.
  apply windows_nonempty; [|done].
  destruct (DocChunker.encode tk text); [done | simpl; lia].
Qed.

(** C9. For every text and every chunk size larger than the overlap,
    [create_chunks] returns (no error) and its result is empty exactly
    when the text is empty or holds blanks only; [chunk_text] returns
    the empty list on such a text and a non-empty list on any other
    text, for a tokenizer that gives that text at least one token. *)
Theorem chunking_nonempty_iff_not_blank
    (chunk_size chunk_overlap : nat) (T : string) (metadata : dict)
    (tk : DocChunker.Tokenizer) :
  chunk_overlap < chunk_size →
  (∃ chunks,
     Chunker.create_chunks chunk_size chunk_overlap T metadata = Some chunks
     ∧ (all_space T = true → chunks = [])
     ∧ (all_space T = false → chunks ≠ []))
  ∧ (all_space T = true → DocChunker.chunk_text tk chunk_size chunk_overlap T = [])
  ∧ (all_space T = false → DocChunker.encode tk T ≠ [] →
     DocChunker.chunk_text tk chunk_size chunk_overlap T ≠ []).
Proof.
  intros Hvalid. split; [|split].
  - destruct (create_chunks_total chunk_size chunk_overlap T metadata Hvalid)
      as (chunks & Heq & Hiff).
    exists chunks. split; [done|]. split.
    + by intros ?%Hiff.
    + intros Hns Hnil%Hiff. congruence.
  - apply chunk_text_blank.
  - apply chunk_text_nonblank.
Qed.

End chunking.

(** ** Chat histories *)

Section history.
Import Py History.

Lemma last_n_app_last_n {A} n (l t : list A) :
  last_n n (last_n n l ++ t) = last_n n (l ++ t).
Proof.
  unfold last_n. destruct (decide (length l ≤ n)) as [Hle|Hgt].
  - by replace (length l - n) with 0 by lia.
  - rewrite !length_app, length_drop.
    replace (length l - (length l - n) + length t - n) with (length t) by lia.
    replace (length l + length t - n) with ((length l - n) + length t) by lia.
    rewrite <- drop_drop. f_equal. rewrite drop_app_le; [done | lia].
Qed.

Lemma add_to_history_last_n h u a :
  add_to_history h u a = last_n 40 (h ++ turn u a).
Proof.
  unfold add_to_history. change (Config.MAX_CHAT_HISTORY * 2) with 40.
  destruct (decide (40 < length (h ++ turn u a))); [done|].
  symmetry. apply last_n_all. lia.
Qed.

Lemma _add_turn_last_n h u a : _add_turn h u a = last_n 40 (h ++ turn u a).
Proof. done. Qed.

Lemma domain_history_last_n turns :
  domain_history [] turns = last_n 40 (messages_of turns).
Proof.
  induction turns as [|t turns IH] using rev_ind; [done|].
  unfold domain_history, messages_of in *.
  rewrite foldl_snoc, bind_app, IH, add_to_history_last_n. simpl.
  rewrite ?(right_id_L [] (++)). apply last_n_app_last_n.
Qed.

Lemma document_history_last_n turns :
  document_history [] turns = last_n 40 (messages_of turns).
Proof.
  induction turns as [|t turns IH] using rev_ind; [done|].
  unfold document_history, messages_of in *.
  rewrite foldl_snoc, bind_app, IH, _add_turn_last_n. simpl.
  rewrite ?(right_id_L [] (++)). apply last_n_app_last_n.
Qed.

Lemma messages_of_cons t turns :
  messages_of (t :: turns) = turn t.1 t.2 ++ messages_of turns.
Proof. done. Qed.

Lemma messages_of_length turns : length (messages_of turns) = 2 * length turns.
Proof.
  induction turns as [|t turns IH]; [done|].
  rewrite messages_of_cons, length_app, IH. simpl. lia.
Qed.

Lemma drop_messages_of k turns :
  drop (2 * k) (messages_of turns) = messages_of (drop k turns).
Proof.
  revert k. induction turns as [|t turns IH]; intros k.
  - rewrite drop_nil. change (messages_of []) with (@nil message).
    by rewrite drop_nil.
  - destruct k as [|k]; [done|].
    replace (2 * S k) with (S (S (2 * k))) by lia.
    rewrite messages_of_cons. simpl. apply IH.
Qed.

Lemma last_n_messages_of turns :
  last_n 40 (messages_of turns) = messages_of (last_n 20 turns).
Proof.
  unfold last_n. rewrite messages_of_length, <- drop_messages_of.
  f_equal. lia.
Qed.

(** C6. Appending a turn to a chat history, for the domain chat and for
    the document chat alike, leaves at most 40 messages (20 turns): the
    last 40 of the old history followed by the new turn, so the oldest
    messages are the ones dropped; a history built from nothing by any
    sequence of appends holds exactly the messages of the last 20 turns
    of that sequence, in order. *)
Theorem chat_history_capped_fifo
    (h : list message) (u a : string) (turns : list (string * string)) :
  length (add_to_history h u a) ≤ Config.MAX_CHAT_HISTORY * 2
  ∧ length (_add_turn h u a) ≤ DocConfig.DOC_MAX_CHAT_HISTORY * 2
  ∧ add_to_history h u a = last_n (Config.MAX_CHAT_HISTORY * 2) (h ++ turn u a)
  ∧ _add_turn h u a = last_n (DocConfig.DOC_MAX_CHAT_HISTORY * 2) (h ++ turn u a)
  ∧ add_to_history h u a `suffix_of` h ++ turn u a
  ∧ _add_turn h u a `suffix_of` h ++ turn u a
  ∧ domain_history [] turns = messages_of (last_n Config.MAX_CHAT_HISTORY turns)
  ∧ document_history [] turns = messages_of (last_n DocConfig.DOC_MAX_CHAT_HISTORY turns)
  ∧ length (domain_history [] turns) ≤ Config.MAX_CHAT_HISTORY * 2
  ∧ length (document_history [] turns) ≤ DocConfig.DOC_MAX_CHAT_HISTORY * 2.
Proof.
  change (Config.MAX_CHAT_HISTORY * 2) with 40.
  change (DocConfig.DOC_MAX_CHAT_HISTORY * 2) with 40.
  change Config.MAX_CHAT_HISTORY with 20.
  change DocConfig.DOC_MAX_CHAT_HISTORY with 20.
  rewrite add_to_history_last_n, _add_turn_last_n.
  rewrite domain_history_last_n, document_history_last_n.
  rewrite <- last_n_messages_of.
  repeat split; try done; try apply last_n_suffix; rewrite last_n_length; lia.
Qed.

End history.

(** ** Similarity search *)

Section search.
Import Py.

Lemma query_length dist q n (c : gmap string Chroma.record) l :
  Chroma.query dist q n c = Some l →
  length l = Nat.min (Z.to_nat n) (Chroma.count c).
Proof.
  unfold Chroma.query, Chroma.count. destruct (decide (n ≤ 0)%Z); [done|].
  intros [= <-]. rewrite length_take, merge_sort_Permutation.
  by rewrite length_map_to_list.
Qed.

Lemma query_positive dist q n (c : gmap string Chroma.record) :
  (0 < n)%Z → is_Some (Chroma.query dist q n c).
Proof. intros Hn. unfold Chroma.query. destruct (decide (n ≤ 0)%Z); [lia | eauto]. Qed.

Lemma doc_similarity_search_spec env q k ds :
  (0 ≤ k)%Z →
  ∃ l, DocStore.similarity_search env q (Some k) ds = Returned l
       ∧ (Z.of_nat (length l) ≤ Z.min k (Z.of_nat (Chroma.count (DocStore.store ds))))%Z
       ∧ (Chroma.count (DocStore.store ds) = 0 ∨ k = 0%Z → l = []).
Proof.
  intros Hk. unfold DocStore.similarity_search. simpl.
  set (n := Z.min k _).
  destruct (decide (n = 0)%Z) as [Hz|Hnz].
  - exists []. split; [done|]. split; [simpl; lia | done].
  - destruct (query_positive (distance env) q n (DocStore.store ds)) as [res Hres];
      [lia|].
    rewrite Hres. eexists; split; [done|].
    rewrite length_fmap, (query_length _ _ _ _ _ Hres). split; [lia|].
    intros [Hc|Hk0]; exfalso; apply Hnz; unfold n; lia.
Qed.

Lemma search_similar_content_spec env q k p name c :
  (0 ≤ k)%Z →
  Processor.collection p = Some name →
  Processor.chroma_client p !! name = Some c →
  ∃ l, Processor.search_similar_content env q k p = Returned l
       ∧ (Z.of_nat (length l) ≤ Z.min k (Z.of_nat (Chroma.count c)))%Z
       ∧ (Chroma.count c = 0 ∨ k = 0%Z → l = []).
Proof.
  intros Hk Hcoll Hc. unfold Processor.search_similar_content.
  rewrite Hcoll, Hc. set (n := Z.min k _).
  destruct (decide (n = 0)%Z) as [Hz|Hnz].
  - exists []. split; [done|]. split; [simpl; lia | done].
  - destruct (query_positive (distance env) q n c) as [res Hres]; [lia|].
    rewrite Hres. eexists; split; [done|].
    rewrite length_fmap, (query_length _ _ _ _ _ Hres). split; [lia|].
    intros [Hc0|Hk0]; exfalso; apply Hnz; unfold n; lia.
Qed.

(** C2. For every query and every requested count [k >= 0], the search
    over the document store and the search over the processor's
    collection return (no error) at most [min(k, count())] results, and
    the empty list when the collection is empty or [k] is zero; the
    document search with its default count and the processor without a
    collection behave the same way. *)
Theorem similarity_search_at_most_min
    (env : Env) (q : string) (k : Z) (ds : DocStore.doc_store)
    (p : Processor.processor) (name : string) (c : gmap string Chroma.record) :
  (0 ≤ k)%Z →
  Processor.collection p = Some name →
  Processor.chroma_client p !! name = Some c →
  (∃ l, DocStore.similarity_search env q (Some k) ds = Returned l
        ∧ (Z.of_nat (length l) ≤ Z.min k (Z.of_nat (Chroma.count (DocStore.store ds))))%Z
        ∧ (Chroma.count (DocStore.store ds) = 0 ∨ k = 0%Z → l = []))
  ∧ (∃ l, DocStore.similarity_search env q None ds = Returned l
        ∧ (Z.of_nat (length l)
           ≤ Z.min DocConfig.DOC_CONTEXT_CHUNKS (Z.of_nat (Chroma.count (DocStore.store ds))))%Z
        ∧ (Chroma.count (DocStore.store ds) = 0 → l = []))
  ∧ (∃ l, Processor.search_similar_content env q k p = Returned l
        ∧ (Z.of_nat (length l) ≤ Z.min k (Z.of_nat (Chroma.count c)))%Z
        ∧ (Chroma.count c = 0 ∨ k = 0%Z → l = []))
  ∧ Processor.search_similar_content env q k
      {| Processor.chroma_client := Processor.chroma_client p;
         Processor.collection := None;
         Processor.domain_metadata := Processor.domain_metadata p |} = Returned [].
Proof.
  intros Hk Hcoll Hc. split; [|split; [|split]].
  - by apply doc_similarity_search_spec.
  - destruct (doc_similarity_search_spec env q DocConfig.DOC_CONTEXT_CHUNKS ds)
      as (l & Heq & Hlen & Hnil); [done|].
    exists l. split; [done|]. split; [done|]. intros H0. apply Hnil. by left.
  - by apply (search_similar_content_spec env q k p name c).
  - done.
Qed.

End search.

(** ** Sync crawls *)

Section sync_crawl.
Import Py Crawler.
Context (env : Env) (w : Web).

(** How a sync crawl classifies a URL against the hashes recorded
    before it. *)
Definition is_new (hashes : gmap string string) (u : string) : bool :=
  match accepted env w u, hashes !! u with
  | Some _, None => true
  | _, _ => false
  end.

Definition is_updated (hashes : gmap string string) (u : string) : bool :=
  match accepted env w u, hashes !! u with
  | Some c, Some h => bool_decide (h ≠ content_hash c)
  | _, _ => false
  end.

Lemma extract_content_url html u pg :
  extract_content env w html u = Some pg → url pg = u.
Proof.
  unfold extract_content. destruct (parse_html w html); simpl; [|done].
  by intros [= <-].
Qed.

Lemma accepted_url u pg : accepted env w u = Some pg → url pg = u.
Proof.
  unfold accepted. destruct (html_unusable _); [done|].
  destruct (extract_content env w _ u) as [c|] eqn:Hc; simpl; [|done].
  destruct (decide (50 < word_count c)); [|done].
  intros [= <-]. by eapply extract_content_url.
Qed.

Lemma crawl_step_sync cr acc x :
  ∃ cr1 acc1,
    crawl_step env w true (cr, acc) x = (cr1, acc1)
    ∧ crawled_data acc1 = crawled_data acc ++ option_list (accepted env w x)
    ∧ new acc1 = new acc ++ (if is_new (last_crawl_hashes cr) x then [x] else [])
    ∧ updated acc1
      = updated acc ++ (if is_updated (last_crawl_hashes cr) x then [x] else [])
    ∧ (∀ u, u ≠ x → last_crawl_hashes cr1 !! u = last_crawl_hashes cr !! u).
Proof.
  unfold crawl_step, is_new, is_updated, accepted.
  destruct (html_unusable (fetch_html w x)).
  { do 2 eexists. split; [done|]. simpl. by rewrite !(right_id_L [] (++)). }
  destruct (extract_content env w (fetch_html w x) x) as [c|]; simpl.
  2:{ do 2 eexists. split; [done|]. simpl. by rewrite !(right_id_L [] (++)). }
  destruct (decide (50 < word_count c)); simpl.
  - do 2 eexists. split; [done|]. simpl. split; [done|].
    destruct (last_crawl_hashes cr !! x) as [h|]; simpl.
    + rewrite (right_id_L [] (++)). split; [done|]. split.
      * destruct (decide (h ≠ content_hash c)).
        -- by rewrite bool_decide_eq_true_2.
        -- rewrite bool_decide_eq_false_2 by done. by rewrite (right_id_L [] (++)).
      * intros u Hu. by rewrite lookup_insert_ne.
    + rewrite (right_id_L [] (++)). split; [done|]. split; [done|].
      intros u Hu. by rewrite lookup_insert_ne.
  - do 2 eexists. split; [done|]. simpl. by rewrite !(right_id_L [] (++)).
Qed.

Lemma omap_cons_option_list {A B} (f : A → option B) x (l : list A) :
  omap f (x :: l) = option_list (f x) ++ omap f l.
Proof. simpl. by destruct (f x). Qed.

Lemma filter_hashes_agree (f : gmap string string → string → bool) h1 h2
    (urls : list string) :
  (∀ u, u ∈ urls → f h1 u = f h2 u) →
  filter (λ u, f h1 u = true) urls = filter (λ u, f h2 u = true) urls.
Proof.
  induction urls as [|x urls IH]; intros H; [done|].
  rewrite !filter_cons, IH by (intros u Hu; apply H; by right).
  rewrite (H x) by (by left). done.
Qed.

Lemma crawl_loop_sync (urls : list string) : ∀ cr acc,
  NoDup urls →
  ∃ cr' acc',
    foldl (crawl_step env w true) (cr, acc) urls = (cr', acc')
    ∧ crawled_data acc' = crawled_data acc ++ omap (accepted env w) urls
    ∧ new acc'
      = new acc ++ filter (λ u, is_new (last_crawl_hashes cr) u = true) urls
    ∧ updated acc'
      = updated acc ++ filter (λ u, is_updated (last_crawl_hashes cr) u = true) urls.
Proof.
  induction urls as [|x urls IH]; intros cr acc Hnd.
  { exists cr, acc. rewrite !filter_nil. simpl.
    by rewrite !(right_id_L [] (++)). }
  apply NoDup_cons in Hnd as [Hx Hnd].
  destruct (crawl_step_sync cr acc x) as (cr1 & acc1 & Hstep & Hd & Hn & Hu & Hh).
  destruct (IH cr1 acc1 Hnd) as (cr' & acc' & Hloop & Hd' & Hn' & Hu').
  exists cr', acc'. cbn [foldl]. rewrite Hstep. split; [done|].
  assert (∀ u, u ∈ urls →
            last_crawl_hashes cr1 !! u = last_crawl_hashes cr !! u) as Hsame.
  { intros u Hin. apply Hh. intros ->. done. }
  rewrite Hd', Hn', Hu', Hd, Hn, Hu, <- !(assoc_L (++)).
  rewrite (filter_hashes_agree is_new (last_crawl_hashes cr1) (last_crawl_hashes cr)),
          (filter_hashes_agree is_updated (last_crawl_hashes cr1) (last_crawl_hashes cr)).
  2:{ intros u Hin. unfold is_updated. by rewrite Hsame. }
  2:{ intros u Hin. unfold is_new. by rewrite Hsame. }
  rewrite !filter_cons.
  rewrite omap_cons_option_list.
  split; [|split].
  - done.
  - destruct (is_new (last_crawl_hashes cr) x) eqn:E; by case_decide.
  - destruct (is_updated (last_crawl_hashes cr) x) eqn:E; by case_decide.
Qed.

Lemma discover_pages_NoDup o domain : NoDup (discover_pages o w domain).
Proof.
  unfold discover_pages. rewrite set_to_list_perm. apply NoDup_elements.
Qed.

(** C5. In a sync crawl, for every page accepted into the result, its
    URL is in the list of new pages exactly when the crawler held no
    hash for it before the crawl, and in the list of updated pages
    exactly when it held a hash that differs from the page's hash; a
    URL whose recorded hash equals the page's hash is in neither
    list. *)
Theorem sync_crawl_classification
    (o : SetOrder) (domain : string) (cr : crawler) (pg : page) :
  pg ∈ pages (crawl_domain env o w domain true cr).2 →
  ∃ updated_pages new_pages total_changes,
    sync (crawl_domain env o w domain true cr).2
      = SyncInfo updated_pages new_pages total_changes
    ∧ (url pg ∈ new_pages ↔ last_crawl_hashes cr !! url pg = None)
    ∧ (url pg ∈ updated_pages ↔
         ∃ h, last_crawl_hashes cr !! url pg = Some h ∧ h ≠ content_hash pg)
    ∧ (last_crawl_hashes cr !! url pg = Some (content_hash pg) →
         (url pg ∉ new_pages) ∧ (url pg ∉ updated_pages)).
Proof.
  unfold crawl_domain, crawl_loop.
  destruct (crawl_loop_sync (discover_pages o w domain) cr
              {| crawled_data := []; updated := []; new := [] |}
              (discover_pages_NoDup o domain))
    as (cr' & acc' & Hloop & Hd & Hn & Hu).
  rewrite Hloop. simpl in *. rewrite Hd, Hn, Hu.
  intros Hpg. apply list_elem_of_omap in Hpg as (u & Hin & Hacc).
  pose proof (accepted_url u pg Hacc) as Hurl. rewrite Hurl.
  do 3 eexists. split; [done|].
  assert (u ∈ filter (λ u, is_new (last_crawl_hashes cr) u = true)
                (discover_pages o w domain)
          ↔ last_crawl_hashes cr !! u = None) as Hnew.
  { rewrite list_elem_of_filter. unfold is_new. rewrite Hacc.
    destruct (last_crawl_hashes cr !! u); naive_solver. }
  assert (u ∈ filter (λ u, is_updated (last_crawl_hashes cr) u = true)
                (discover_pages o w domain)
          ↔ ∃ h, last_crawl_hashes cr !! u = Some h ∧ h ≠ content_hash pg) as Hupd.
  { rewrite list_elem_of_filter. unfold is_updated. rewrite Hacc.
    destruct (last_crawl_hashes cr !! u) as [h|].
    - rewrite bool_decide_eq_true. naive_solver.
    - naive_solver. }
  split; [done|]. split; [done|].
  intros Hsame. rewrite Hnew, Hupd, Hsame. naive_solver.
Qed.

End sync_crawl.

(** ** Discovery *)

Section discovery.
Import Py Crawler.

Definition append_new (acc : list string) (x : string) : list string :=
  if negb (bool_decide (x ∈ acc)) then acc ++ [x] else acc.

Lemma filter_filter_ne_notin (acc : list string) x (l : list string) :
  filter (λ y, y ∉ acc ++ [x]) l = filter (λ y, y ∉ acc) (filter (λ y, y ≠ x) l).
Proof.
  rewrite list_filter_filter. apply list_filter_iff. intros y.
  rewrite elem_of_app, list_elem_of_singleton. naive_solver.
Qed.

Lemma filter_notin_drop_ne (acc : list string) x (l : list string) :
  x ∈ acc →
  filter (λ y, y ∉ acc) (filter (λ y, y ≠ x) l) = filter (λ y, y ∉ acc) l.
Proof.
  intros Hx. rewrite list_filter_filter. apply list_filter_iff. intros y.
  naive_solver.
Qed.

Lemma filter_notin_nil (l : list string) : filter (λ y, y ∉ []) l = l.
Proof.
  induction l as [|x l IH]; [done|].
  rewrite filter_cons, decide_True, IH; [done|]. apply not_elem_of_nil.
Qed.

Lemma foldl_append_new (l : list string) : ∀ acc,
  foldl append_new acc l = acc ++ filter (λ y, y ∉ acc) (first_occurrences l).
Proof.
  induction l as [|x l IH]; intros acc.
  - simpl. by rewrite filter_nil, (right_id_L [] (++)).
  - cbn [foldl first_occurrences]. rewrite IH. unfold append_new.
    rewrite filter_cons. destruct (decide (x ∈ acc)) as [Hin|Hnin].
    + rewrite bool_decide_eq_true_2 by done. simpl.
      rewrite decide_False by (intros H; by apply H).
      by rewrite filter_notin_drop_ne.
    + rewrite bool_decide_eq_false_2 by done. simpl.
      rewrite decide_True by done.
      by rewrite <- (assoc_L (++)), filter_filter_ne_notin.
Qed.

Lemma keyword_loop keyword (links : list string) : ∀ acc,
  foldl (λ prioritized link,
           if contains keyword (lower link) && negb (bool_decide (link ∈ prioritized))
           then prioritized ++ [link] else prioritized) acc links
  = foldl append_new acc (filter (λ link, matches keyword link = true) links).
Proof.
  induction links as [|x links IH]; intros acc; [done|].
  cbn [foldl]. rewrite filter_cons.
  destruct (decide (matches keyword x = true)) as [E|E].
  - cbn [foldl]. unfold append_new at 2. unfold matches in E. rewrite E. apply IH.
  - apply not_true_is_false in E. unfold matches in E. rewrite E. apply IH.
Qed.

Lemma keywords_loop (links : list string) (keywords : list string) : ∀ acc,
  foldl (λ prioritized keyword,
           foldl (λ prioritized link,
                    if contains keyword (lower link)
                       && negb (bool_decide (link ∈ prioritized))
                    then prioritized ++ [link] else prioritized)
                 prioritized links) acc keywords
  = foldl append_new acc
      (keywords ≫= (λ keyword, filter (λ link, matches keyword link = true) links)).
Proof.
  induction keywords as [|k keywords IH]; intros acc; [done|].
  cbn [foldl]. rewrite IH, keyword_loop.
  change ((k :: keywords) ≫= ?f) with (f k ++ (keywords ≫= f)).
  by rewrite foldl_app.
Qed.

Lemma prioritize_first_occurrences links :
  prioritize links = first_occurrences (by_keyword links ++ links).
Proof.
  unfold prioritize. rewrite keywords_loop.
  change (foldl (λ prioritized link,
                   if negb (bool_decide (link ∈ prioritized))
                   then prioritized ++ [link] else prioritized))
    with (foldl append_new).
  rewrite <- foldl_app, foldl_append_new. simpl.
  apply filter_notin_nil.
Qed.

Lemma filter_agree_in {A} (P Q : A → Prop)
    `{!∀ x, Decision (P x), !∀ x, Decision (Q x)} (l : list A) :
  (∀ x, x ∈ l → P x ↔ Q x) → filter P l = filter Q l.
Proof.
  induction l as [|a l IH]; intros Hag; [done|].
  rewrite !filter_cons, IH by (intros x Hx; apply Hag; by right).
  assert (P a ↔ Q a) as Ha by (apply Hag; by left).
  destruct (decide (P a)), (decide (Q a)); naive_solver.
Qed.

Lemma elem_of_first_occurrences x l : x ∈ first_occurrences l ↔ x ∈ l.
Proof.
  induction l as [|a l IH]; [done|]. cbn [first_occurrences].
  rewrite !elem_of_cons, list_elem_of_filter, IH.
  destruct (decide (x = a)); naive_solver.
Qed.

Lemma NoDup_first_occurrences l : NoDup (first_occurrences l).
Proof.
  induction l as [|a l IH]; [constructor|]. cbn [first_occurrences].
  apply NoDup_cons. split.
  - rewrite list_elem_of_filter. naive_solver.
  - by apply NoDup_filter.
Qed.

Lemma filter_first_occurrences (P : string → Prop) `{!∀ x, Decision (P x)} l :
  filter P (first_occurrences l) = first_occurrences (filter P l).
Proof.
  induction l as [|a l IH]; [done|]. cbn [first_occurrences].
  rewrite !filter_cons. destruct (decide (P a)) as [Ha|Ha].
  - cbn [first_occurrences]. f_equal. rewrite <- IH, !list_filter_filter.
    apply list_filter_iff. naive_solver.
  - rewrite <- IH, list_filter_filter. apply list_filter_iff. naive_solver.
Qed.

Lemma first_occurrences_app K L :
  first_occurrences (K ++ L)
  = first_occurrences K ++ filter (λ y, y ∉ K) (first_occurrences L).
Proof.
  induction K as [|a K IH].
  - simpl. by rewrite filter_notin_nil.
  - cbn [app first_occurrences]. rewrite IH, filter_app. f_equal. f_equal.
    rewrite list_filter_filter. apply list_filter_iff. intros y.
    rewrite elem_of_cons. naive_solver.
Qed.

Lemma has_keyword_true link :
  has_keyword link = true ↔
  ∃ keyword, keyword ∈ priority_keywords ∧ matches keyword link = true.
Proof.
  unfold has_keyword. rewrite existsb_exists.
  split; intros (k & Hk & Hm); exists k; split; try done; by apply list_elem_of_In.
Qed.

Lemma elem_of_by_keyword x links :
  x ∈ by_keyword links ↔ x ∈ links ∧ has_keyword x = true.
Proof.
  unfold by_keyword. rewrite list_elem_of_bind, has_keyword_true.
  split.
  - intros (k & Hx & Hk). apply list_elem_of_filter in Hx as [Hm Hx]. eauto.
  - intros (Hx & k & Hk & Hm). exists k. split; [|done].
    apply list_elem_of_filter. done.
Qed.

Lemma prioritize_groups links :
  prioritize links
  = first_occurrences (by_keyword links)
    ++ first_occurrences (filter (λ link, has_keyword link = false) links).
Proof.
  rewrite prioritize_first_occurrences, first_occurrences_app. f_equal.
  rewrite filter_first_occurrences. f_equal.
  apply filter_agree_in. intros x Hx. rewrite elem_of_by_keyword.
  destruct (has_keyword x); naive_solver.
Qed.

Lemma elem_of_prioritize x links : x ∈ prioritize links ↔ x ∈ links.
Proof.
  rewrite prioritize_first_occurrences, elem_of_first_occurrences, elem_of_app,
    elem_of_by_keyword. naive_solver.
Qed.

Lemma urls_to_crawl_links (w : Web) domain raw :
  soup_links w domain (fetch_html w domain) = Some raw →
  urls_to_crawl w domain
  = domain :: take (Config.MAX_PAGES - 1)
                (prioritize (filter (λ url, is_valid_url w url domain = true) raw)).
Proof. intros H. unfold urls_to_crawl. by rewrite H. Qed.

(** C3 (as amended). The ranked list built by discovery, which the
    crawl list takes its first 24 entries from, holds every candidate
    link once, all links that match a priority keyword before all links
    that match none; the matching links are grouped keyword by keyword
    in the order of the keyword list and, within one keyword, in the
    order of the seed page; the links without a keyword are in the
    order of the seed page. *)
Theorem prioritized_keyword_links_first (links : list string) :
  prioritize links
  = first_occurrences (by_keyword links)
    ++ first_occurrences (filter (λ link, has_keyword link = false) links)
  ∧ Forall (λ link, has_keyword link = true) (first_occurrences (by_keyword links))
  ∧ Forall (λ link, has_keyword link = false)
      (first_occurrences (filter (λ link, has_keyword link = false) links))
  ∧ NoDup (prioritize links)
  ∧ (∀ link, link ∈ prioritize links ↔ link ∈ links)
  ∧ (∀ i j a b,
       prioritize links !! i = Some a → prioritize links !! j = Some b →
       has_keyword a = true → has_keyword b = false → i < j)
  ∧ (∀ (w : Web) domain raw,
       soup_links w domain (fetch_html w domain) = Some raw →
       links = filter (λ url, is_valid_url w url domain = true) raw →
       urls_to_crawl w domain
       = domain :: take (Config.MAX_PAGES - 1) (prioritize links)).
Proof.
  assert (Forall (λ link, has_keyword link = true)
            (first_occurrences (by_keyword links))) as HA.
  { apply Forall_forall. intros x Hx.
    apply elem_of_first_occurrences, elem_of_by_keyword in Hx. tauto. }
  assert (Forall (λ link, has_keyword link = false)
            (first_occurrences (filter (λ link, has_keyword link = false) links)))
    as HB.
  { apply Forall_forall. intros x Hx.
    apply elem_of_first_occurrences, list_elem_of_filter in Hx. tauto. }
  split; [apply prioritize_groups|]. split; [done|]. split; [done|].
  split; [rewrite prioritize_first_occurrences; apply NoDup_first_occurrences|].
  split; [intros link; apply elem_of_prioritize|]. split.
  - intros i j a b Hi Hj Ha Hb. rewrite prioritize_groups in Hi, Hj.
    set (A := first_occurrences (by_keyword links)) in *.
    set (B := first_occurrences _) in Hi, Hj, HB.
    destruct (decide (i < length A)) as [Hlt|Hge].
    + destruct (decide (j < length A)) as [Hjlt|Hjge]; [|lia].
      rewrite lookup_app_l in Hj by done.
      apply list_elem_of_lookup_2 in Hj.
      rewrite Forall_forall in HA. specialize (HA b Hj). congruence.
    + rewrite lookup_app_r in Hi by lia.
      apply list_elem_of_lookup_2 in Hi.
      rewrite Forall_forall in HB. specialize (HB a Hi). congruence.
  - intros w domain raw Hraw ->. by apply urls_to_crawl_links.
Qed.

(** The ordering the specification words ask for inside a group of
    links: links of the group keep the order in which the seed page
    shows them. *)
Definition first_seen_order_within (group : string → bool)
    (seen crawl : list string) : Prop :=
  ∀ a b i j i' j',
    group a = true → group b = true →
    seen !! i = Some a → seen !! j = Some b → i < j →
    crawl !! i' = Some a → crawl !! j' = Some b → i' < j'.

(** C3, counterexample.  The home page of the example site shows its
    blog link before its about link, both match a keyword, and
    discovery lists the about link first. *)
Lemma keyword_links_not_in_first_seen_order :
  soup_links Example.web "https://example.com"
    (fetch_html Example.web "https://example.com")
  = Some [ "https://example.com/blog"; "https://example.com/about";
           "https://example.com/faq"; "https://example.com/login";
           "https://other.org/about" ]
  ∧ urls_to_crawl Example.web "https://example.com"
    = [ "https://example.com"; "https://example.com/about";
        "https://example.com/blog"; "https://example.com/faq" ]
  ∧ ¬ first_seen_order_within has_keyword
        [ "https://example.com/blog"; "https://example.com/about";
          "https://example.com/faq"; "https://example.com/login";
          "https://other.org/about" ]
        (urls_to_crawl Example.web "https://example.com").
Proof.
  split; [done|]. split; [by vm_compute|].
  intros H.
  specialize (H "https://example.com/blog" "https://example.com/about" 0 1 2 1).
  assert (2 < 1) as Habs; [|lia].
  apply H; by vm_compute.
Qed.

(** The list that [discover_pages] returns goes through a set, so its
    order is that of the set: two iteration orders give two different
    lists for the same page. *)
Lemma discover_pages_order_is_the_set_order :
  discover_pages Example.ascending Example.web "https://example.com"
  = [ "https://example.com"; "https://example.com/about";
      "https://example.com/blog"; "https://example.com/faq" ]
  ∧ discover_pages Example.descending Example.web "https://example.com"
  = [ "https://example.com/faq"; "https://example.com/blog";
      "https://example.com/about"; "https://example.com" ].
Proof. split; by vm_compute. Qed.




Lemma elem_of_discover_pages (o : SetOrder) (w : Web) domain u :
  u ∈ discover_pages o w domain ↔ u ∈ urls_to_crawl w domain.
Proof.
  unfold discover_pages.
  by rewrite set_to_list_perm, elem_of_elements, elem_of_list_to_set.
Qed.



End discovery.

(** ** Crawling a list of URLs *)

Section specific_urls.
Import Py Crawler.
Context (env : Env) (w : Web).

(** The URLs that [crawl_specific_urls] records as failed: the document
    is unusable or extraction raises. *)
Definition fails (u : string) : bool :=
  html_unusable (fetch_html w u)
  || bool_decide (extract_content env w (fetch_html w u) u = None).

Lemma with_scheme_has_scheme u :
  startswith "http://" (with_scheme u) || startswith "https://" (with_scheme u) = true.
Proof.
  unfold with_scheme.
  destruct (startswith "http://" u || startswith "https://" u) eqn:E; [exact E|].
  apply orb_true_iff. right. by destruct u.
Qed.

Lemma specific_step_spec crawled failed u :
  specific_step env w (crawled, failed) u
  = (crawled ++ option_list (accepted env w (with_scheme u)),
     failed ++ (if fails (with_scheme u) then [with_scheme u] else [])).
Proof.
  unfold specific_step, accepted, fails.
  destruct (html_unusable _); simpl.
  { by rewrite (right_id_L [] (++)). }
  destruct (extract_content env w _ _) as [c|]; simpl.
  - destruct (decide (50 < word_count c)); simpl; by rewrite !(right_id_L [] (++)).
  - by rewrite (right_id_L [] (++)).
Qed.

Lemma specific_loop_spec (urls : list string) : ∀ crawled failed,
  foldl (specific_step env w) (crawled, failed) urls
  = (crawled ++ omap (accepted env w) (with_scheme <$> urls),
     failed ++ filter (λ u, fails u = true) (with_scheme <$> urls)).
Proof.
  induction urls as [|u urls IH]; intros crawled failed.
  - simpl. by rewrite filter_nil, !(right_id_L [] (++)).
  - cbn [foldl]. rewrite specific_step_spec, IH, fmap_cons.
    rewrite omap_cons_option_list, filter_cons, <- !(assoc_L (++)).
    do 3 f_equal. destruct (fails (with_scheme u)); by case_decide.
Qed.

(** What [crawl_specific_urls] returns: each supplied URL is completed
    with [https://] when it has no scheme; those whose page is accepted
    give the pages, those whose document is unusable or whose extraction
    raises give the failed list; a URL whose content is too short is in
    neither, and no URL is in both. *)
Lemma crawl_specific_urls_spec (urls : list string) :
  pages (crawl_specific_urls env w urls)
  = omap (accepted env w) (with_scheme <$> urls)
  ∧ failed_urls (crawl_specific_urls env w urls)
  = filter (λ u, fails u = true) (with_scheme <$> urls)
  ∧ (∀ pg, pg ∈ pages (crawl_specific_urls env w urls) →
       url pg ∉ failed_urls (crawl_specific_urls env w urls)).
Proof.
  unfold crawl_specific_urls. rewrite specific_loop_spec. simpl.
  split; [done|]. split; [done|].
  intros pg (u & Hu & Hacc)%list_elem_of_omap.
  rewrite (accepted_url env w u pg Hacc).
  intros [Hf _]%list_elem_of_filter. revert Hacc Hf. unfold accepted, fails.
  destruct (html_unusable _); [done|]. simpl.
  destruct (extract_content env w _ u); simpl; [|done].
  intros _ [=].
Qed.

End specific_urls.

(** C7. The page [https://short.example] of the example web is served
    (128 characters) and holds two words.  Given as [short.example] it
    is fetched under [https://], dropped for its short content and not
    recorded: it is neither in the pages nor in the failed URLs, where
    a URL that cannot be fetched at all is recorded. *)
Theorem short_content_url_is_not_recorded_as_failed :
  Crawler.with_scheme "short.example" = "https://short.example"
  ∧ String.length (fetch_html Example.web "https://short.example") = 128
  ∧ word_count <$>
      Crawler.extract_content (Example.env Chroma.SkipExisting) Example.web
        (fetch_html Example.web "https://short.example") "https://short.example"
    = Some 2
  ∧ pages (Crawler.crawl_specific_urls (Example.env Chroma.SkipExisting)
             Example.web ["short.example"; "nowhere.example"]) = []
  ∧ failed_urls (Crawler.crawl_specific_urls (Example.env Chroma.SkipExisting)
                   Example.web ["short.example"; "nowhere.example"])
    = ["https://nowhere.example"].
Proof. repeat split; by vm_compute. Qed.

(** ** Re-sync *)

Section resync.
Import Py Analyzer.
Context (env : Env) (o : SetOrder) (w : Web).

(** The guard of [sync_domain]: what makes it turn a request down. *)
Definition sync_guard (a : analyzer) : bool :=
  match current_domain a with
  | None | Some "" => true
  | Some current =>
      startswith "session_chroma_" current
      || match Processor.md_domain <$> Processor.domain_metadata (processor a) with
         | None | Some "" => true
         | Some original => startswith "uploads:" original
         end
  end.

Lemma sync_domain_rejects_iff a :
  (∃ message, sync_domain env o w a = (a, Rejected message))
  ↔ sync_guard a = true.
Proof.
  unfold sync_domain, sync_guard.
  destruct (current_domain a) as [[|c current]|]; [naive_solver| |naive_solver].
  destruct (startswith "session_chroma_" (String c current)); [naive_solver|].
  simpl.
  destruct (Processor.domain_metadata (processor a)) as [md|]; simpl;
    [|naive_solver].
  destruct (Processor.md_domain md) as [|d original]; [naive_solver|].
  destruct (startswith "uploads:" (String d original)); [naive_solver|].
  destruct (Crawler.crawl_domain env o w (String d original) true (crawler a))
    as [cr dd].
  destruct (Processor.process_domain_data env dd true (processor a)) as [p [name|e]];
    split; try done; intros (m & [=]).
Qed.

(** A session backed by the session collection (no crawl yet, or
    uploaded documents) is turned down, and nothing changes. *)
Lemma sync_domain_rejects_session_collection a current :
  current_domain a = Some current →
  startswith "session_chroma_" current = true →
  ∃ message, sync_domain env o w a = (a, Rejected message).
Proof.
  intros Hc Hs. apply sync_domain_rejects_iff. unfold sync_guard.
  rewrite Hc, Hs. by destruct current.
Qed.

(** A session filled by [analyze_specific_urls] carries the domain
    string [multiple-urls], which passes the guard: the request goes on
    to a sync crawl of that string. *)
Lemma sync_domain_crawls_multiple_urls a current md :
  current_domain a = Some current →
  current ≠ "" →
  startswith "session_chroma_" current = false →
  Processor.domain_metadata (processor a) = Some md →
  Processor.md_domain md = "multiple-urls" →
  ∃ a' message, sync_domain env o w a = (a', Crawled message).
Proof.
  intros Hc Hne Hs Hmd Hd. unfold sync_domain. rewrite Hc.
  destruct current as [|c current]; [done|]. rewrite Hs, Hmd. simpl. rewrite Hd.
  simpl.
  destruct (Crawler.crawl_domain env o w "multiple-urls" true (crawler a)) as [cr dd].
  destruct (Processor.process_domain_data env dd true (processor a)) as [p [name|e]];
    eauto.
Qed.

End resync.

(** C8. A session filled from the two URLs [example.com/blog] and
    [example.com/about] holds the collection [domain_13] and the domain
    string [multiple-urls]; the guard of [sync_domain] lets it through,
    and the re-sync answers with a success message after a sync crawl of
    the string [multiple-urls] instead of turning the request down. *)
Theorem sync_after_specific_urls_is_not_rejected :
  let env := Example.env Chroma.SkipExisting in
  let a := (Analyzer.analyze_specific_urls env Example.web
              ["example.com/blog"; "example.com/about"] Example.session).1 in
  Analyzer.current_domain a = Some "domain_13"
  ∧ Processor.md_domain <$> Processor.domain_metadata (Analyzer.processor a)
    = Some "multiple-urls"
  ∧ length <$> (pages <$> Analyzer.current_domain_data a) = Some 2
  ∧ sync_guard a = false
  ∧ (Analyzer.sync_domain env Example.ascending Example.web a).2
    = Analyzer.Crawled
        ("Success: Sync completed." +:+ Analyzer.newline +:+ "0 pages changed.").
Proof. repeat split; by vm_compute. Qed.

(** ** Storing chunks *)

Section storing.
Import Py Processor.

#[local] Instance chunk_id_inj : Inj (=) (=) chunk_id.
Proof.
  intros n m H. unfold chunk_id in H.
  by apply (inj (String.app "chunk_")), (inj pretty) in H.
Qed.

Lemma batch_of_keys offset chunks :
  (batch_of offset chunks).*1 = (λ i, chunk_id (i + offset)) <$> seq 0 (length chunks).
Proof.
  unfold batch_of. rewrite fmap_imap.
  change (λ n, fst ∘ _) with (λ (n : nat) (_ : chunk), chunk_id (n + offset)).
  apply imap_seq_0.
Qed.

Lemma batch_of_NoDup offset chunks : NoDup (batch_of offset chunks).*1.
Proof.
  rewrite batch_of_keys. apply NoDup_fmap_2_strong; [|apply NoDup_seq].
  intros i j _ _ H. apply (inj chunk_id) in H. lia.
Qed.

Lemma batch_of_lookup offset chunks id r :
  (list_to_map (batch_of offset chunks) : gmap string Chroma.record) !! id = Some r
  ↔ ∃ i ch, chunks !! i = Some ch ∧ id = chunk_id (i + offset) ∧ r = record_of ch.
Proof.
  rewrite <- elem_of_list_to_map by apply batch_of_NoDup.
  unfold batch_of. rewrite elem_of_lookup_imap. unfold record_of.
  split; intros (i & ch & H1 & H2); exists i, ch; naive_solver.
Qed.

Lemma batch_of_size offset chunks :
  size (list_to_map (batch_of offset chunks) : gmap string Chroma.record)
  = length chunks.
Proof.
  rewrite map_size_list_to_map by apply batch_of_NoDup.
  unfold batch_of. apply length_imap.
Qed.

Lemma batch_of_nil offset chunks : batch_of offset chunks = [] ↔ chunks = [].
Proof.
  rewrite <- !length_zero_iff_nil. unfold batch_of. by rewrite length_imap.
Qed.

Lemma add_subseteq pol batch (c c' : gmap string Chroma.record) :
  Chroma.add pol batch c = Some c' → c ⊆ c'.
Proof.
  unfold Chroma.add. destruct (decide (batch = [])); [done|].
  destruct (decide (NoDup batch.*1)); [|done].
  destruct pol; [|destruct (decide _); [|done]];
    intros [= <-]; apply map_union_subseteq_l.
Qed.

Lemma add_fresh pol batch (c : gmap string Chroma.record) :
  batch ≠ [] → NoDup batch.*1 → Forall (λ i, c !! i = None) batch.*1 →
  Chroma.add pol batch c = Some (c ∪ list_to_map batch).
Proof.
  intros Hne Hnd Hfresh. unfold Chroma.add.
  rewrite decide_False, decide_True by done.
  destruct pol; [done|]. by rewrite decide_True.
Qed.

Lemma all_chunks_of_total env pgs : ∃ chunks, all_chunks_of env pgs = Some chunks.
Proof.
  induction pgs as [|pg pgs [more IH]]; [by eexists|]. cbn [all_chunks_of].
  destruct (create_chunks_total Config.CHUNK_SIZE Config.CHUNK_OVERLAP
              (content pg) (page_metadata env pg)) as (chunks & -> & _).
  { apply Nat.ltb_lt. by vm_compute. }
  rewrite IH. simpl. by eexists.
Qed.

Lemma open_collection_fresh name (cl : gmap string (gmap string Chroma.record)) :
  open_collection name false cl = Some (<[name := ∅]> (delete name cl)).
Proof.
  unfold open_collection, Chroma.delete_collection, Chroma.create_collection.
  destruct (cl !! name) eqn:E; simpl.
  - by rewrite lookup_delete_eq.
  - rewrite E. by rewrite delete_id.
Qed.

Lemma open_collection_sync name (cl : gmap string (gmap string Chroma.record)) c :
  cl !! name = Some c → open_collection name true cl = Some cl.
Proof. intros H. unfold open_collection. by rewrite H. Qed.

Lemma process_domain_data_fresh env dd p chunks :
  all_chunks_of env (pages dd) = Some chunks →
  ∃ p',
    process_domain_data env dd false p = (p', Returned (collection_name env dd))
    ∧ collection p' = Some (collection_name env dd)
    ∧ chroma_client p'
      = <[collection_name env dd := list_to_map (batch_of 0 chunks)]>
          (delete (collection_name env dd) (chroma_client p)).
Proof.
  intros Hchunks. unfold process_domain_data.
  rewrite open_collection_fresh, Hchunks.
  set (name := collection_name env dd).
  destruct (decide (chunks = [])) as [->|Hne].
  - eexists. split; [done|]. split; [done|]. simpl. done.
  - rewrite lookup_insert_eq. simpl.
    rewrite add_fresh.
    + simpl. eexists. split; [done|]. split; [done|]. simpl.
      by rewrite insert_insert_eq, (left_id_L ∅ (∪)).
    + by rewrite batch_of_nil.
    + apply batch_of_NoDup.
    + apply Forall_forall. intros i _. apply lookup_empty.
Qed.

Lemma process_domain_data_sync_keeps env dd p c :
  chroma_client p !! collection_name env dd = Some c →
  ∃ c', chroma_client (process_domain_data env dd true p).1
          !! collection_name env dd = Some c'
        ∧ c ⊆ c'.
Proof.
  intros Hc. unfold process_domain_data.
  rewrite (open_collection_sync _ _ c Hc).
  set (name := collection_name env dd) in *.
  destruct (all_chunks_of env (pages dd)) as [chunks|]; [|by exists c].
  destruct (decide (chunks = [])) as [->|Hne].
  - destruct (sync dd); by exists c.
  - rewrite Hc. simpl.
    destruct (Chroma.add (dup env) (batch_of (Chroma.count c) chunks) c)
      as [c'|] eqn:Hadd; simpl; [|by exists c].
    apply add_subseteq in Hadd.
    destruct (sync dd); simpl; exists c'; by rewrite lookup_insert_eq.
Qed.

Lemma process_domain_data_sync_after_fresh env dd p chunks :
  all_chunks_of env (pages dd) = Some chunks →
  chroma_client p !! collection_name env dd
    = Some (list_to_map (batch_of 0 chunks)) →
  count_of (process_domain_data env dd true p).1 (collection_name env dd)
  = Some (2 * length chunks).
Proof.
  intros Hchunks Hc. unfold process_domain_data, count_of.
  rewrite (open_collection_sync _ _ _ Hc), Hchunks.
  set (name := collection_name env dd) in *.
  destruct (decide (chunks = [])) as [->|Hne].
  - destruct (sync dd); simpl; by rewrite Hc.
  - rewrite Hc. simpl. unfold Chroma.count at 1. rewrite batch_of_size.
    assert (∀ i, i ∈ (batch_of (length chunks) chunks).*1 →
                 (list_to_map (batch_of 0 chunks) : gmap string Chroma.record) !! i
                 = None) as Hfresh.
    { intros i Hi. rewrite batch_of_keys in Hi.
      apply list_elem_of_fmap in Hi as (k & -> & Hk).
      apply not_elem_of_list_to_map_1. rewrite batch_of_keys.
      intros (j & Hj & Hjin)%list_elem_of_fmap. apply (inj chunk_id) in Hj.
      apply elem_of_seq in Hjin. lia. }
    rewrite add_fresh.
    + assert (size (list_to_map (batch_of 0 chunks)
                    ∪ list_to_map (batch_of (length chunks) chunks)
                    : gmap string Chroma.record) = 2 * length chunks) as Hsize.
      { rewrite map_size_disj_union, !batch_of_size; [lia|].
        apply map_disjoint_spec. intros i x y Hx Hy.
        rewrite Hfresh in Hx; [done|].
        apply (elem_of_list_to_map_2 _ i y) in Hy.
        apply list_elem_of_fmap. by exists (i, y). }
      destruct (sync dd); simpl; rewrite lookup_insert_eq; simpl;
        unfold Chroma.count; by rewrite Hsize.
    + by rewrite batch_of_nil.
    + apply batch_of_NoDup.
    + by apply Forall_forall.
Qed.

Lemma union_singleton_present (d : gmap string Chroma.record) id r :
  is_Some (d !! id) → d ∪ list_to_map [(id, r)] = d.
Proof.
  intros [x Hx]. apply map_eq. intros k. rewrite lookup_union. simpl.
  destruct (decide (k = id)) as [->|Hne].
  - rewrite Hx, lookup_insert_eq. done.
  - rewrite lookup_insert_ne, lookup_empty by done. by destruct (d !! k).
Qed.

Lemma add_single pol id r (c : gmap string Chroma.record) :
  Chroma.add pol [(id, r)] c
  = match pol with
    | Chroma.SkipExisting => Some (c ∪ list_to_map [(id, r)])
    | Chroma.RaiseOnExisting =>
        if decide (c !! id = None) then Some (c ∪ list_to_map [(id, r)]) else None
    end.
Proof.
  unfold Chroma.add. rewrite decide_False by done.
  rewrite decide_True by (apply NoDup_singleton).
  destruct pol; [done|]. simpl.
  destruct (decide (c !! id = None)) as [Hn|Hs].
  - rewrite decide_True; [done|]. by constructor.
  - rewrite decide_False; [done|]. intros H. by apply Forall_inv in H.
Qed.

Lemma upsert_from_subseteq pol sid docs : ∀ i (c : gmap string Chroma.record),
  c ⊆ (DocStore.upsert_from pol sid i docs c).1.
Proof.
  induction docs as [|doc docs IH]; intros i c; cbn [DocStore.upsert_from]; [done|].
  destruct (chunk_metadata doc !! "file_name") as [fname|]; [|done].
  destruct (Chroma.add pol _ c) as [c'|] eqn:Hadd; [|done].
  etrans; [by eapply add_subseteq|]. apply IH.
Qed.

Lemma upsert_from_skip_again sid docs : ∀ i (c d : gmap string Chroma.record),
  (DocStore.upsert_from Chroma.SkipExisting sid i docs c).1 ⊆ d →
  (DocStore.upsert_from Chroma.SkipExisting sid i docs d).1 = d.
Proof.
  induction docs as [|doc docs IH]; intros i c d; cbn [DocStore.upsert_from];
    [done|].
  destruct (chunk_metadata doc !! "file_name") as [fname|]; [|done].
  rewrite !add_single. intros Hsub.
  assert (is_Some (d !! DocStore.doc_id sid i fname)) as Hin.
  { assert (is_Some ((c ∪ list_to_map [(DocStore.doc_id sid i fname,
                        {| Chroma.document := text doc;
                           Chroma.metadata := chunk_metadata doc |})])
                     !! DocStore.doc_id sid i fname)) as [x Hx].
    { rewrite lookup_union. cbn [list_to_map foldr uncurry fst snd].
      rewrite lookup_insert_eq. destruct (c !! _); eauto. }
    exists x. eapply lookup_weaken; [exact Hx|].
    etrans; [apply upsert_from_subseteq|exact Hsub]. }
  rewrite (union_singleton_present d _ _ Hin). by eapply IH.
Qed.

Lemma upsert_from_raise_again sid docs i (c : gmap string Chroma.record) :
  (DocStore.upsert_from Chroma.RaiseOnExisting sid i docs
     (DocStore.upsert_from Chroma.RaiseOnExisting sid i docs c).1).1
  = (DocStore.upsert_from Chroma.RaiseOnExisting sid i docs c).1.
Proof.
  destruct docs as [|doc docs]; cbn [DocStore.upsert_from]; [done|].
  destruct (chunk_metadata doc !! "file_name") as [fname|] eqn:Hf; [|done].
  rewrite (add_single Chroma.RaiseOnExisting _ _ c).
  destruct (decide (c !! DocStore.doc_id sid i fname = None)) as [Hn|Hs].
  - set (c1 := c ∪ list_to_map _).
    set (c' := (DocStore.upsert_from _ sid (S i) docs c1).1).
    rewrite add_single, decide_False; [done|].
    assert (is_Some (c1 !! DocStore.doc_id sid i fname)) as [x Hx].
    { unfold c1. rewrite lookup_union. cbn [list_to_map foldr uncurry fst snd].
      rewrite lookup_insert_eq, Hn. eauto. }
    assert (c' !! DocStore.doc_id sid i fname = Some x) as ->; [|done].
    eapply lookup_weaken; [exact Hx|]. apply upsert_from_subseteq.
  - cbn [fst]. by rewrite add_single, decide_False.
Qed.

Lemma upsert_chunks_again env docs ds :
  DocStore.store (DocStore.upsert_chunks env docs
                    (DocStore.upsert_chunks env docs ds).1).1
  = DocStore.store (DocStore.upsert_chunks env docs ds).1.
Proof.
  unfold DocStore.upsert_chunks. simpl. destruct (dup env).
  - by eapply upsert_from_skip_again.
  - apply upsert_from_raise_again.
Qed.

(** C10. Processing crawl data outside sync mode returns the
    domain-derived collection name and leaves under that name exactly
    the chunks of this crawl's pages: record [chunk_i] holds the text
    and metadata of chunk [i], there are as many records as chunks, and
    nothing stored under that name before is kept; other collections
    are untouched.  In sync mode every record the collection held before
    is still there afterwards. *)
Theorem non_sync_processing_replaces_collection
    (env : Env) (dd : domain_data) (p : processor) :
  ∃ chunks p' stored,
    all_chunks_of env (pages dd) = Some chunks
    ∧ process_domain_data env dd false p = (p', Returned (collection_name env dd))
    ∧ collection p' = Some (collection_name env dd)
    ∧ chroma_client p' !! collection_name env dd = Some stored
    ∧ Chroma.count stored = length chunks
    ∧ (∀ id r, stored !! id = Some r ↔
         ∃ i ch, chunks !! i = Some ch ∧ id = chunk_id i ∧ r = record_of ch)
    ∧ (∀ other, other ≠ collection_name env dd →
         chroma_client p' !! other = chroma_client p !! other)
    ∧ (∀ q old, chroma_client q !! collection_name env dd = Some old →
         ∃ kept, chroma_client (process_domain_data env dd true q).1
                   !! collection_name env dd = Some kept
                 ∧ old ⊆ kept).
Proof.
  destruct (all_chunks_of_total env (pages dd)) as [chunks Hchunks].
  destruct (process_domain_data_fresh env dd p chunks Hchunks)
    as (p' & Hrun & Hcoll & Hcl).
  exists chunks, p', (list_to_map (batch_of 0 chunks)).
  split; [done|]. split; [done|]. split; [done|].
  split; [by rewrite Hcl, lookup_insert_eq|].
  split; [apply batch_of_size|]. split.
  - intros id r. rewrite batch_of_lookup.
    split; intros (i & ch & H1 & H2 & H3); exists i, ch;
      rewrite ?Nat.add_0_r in *; done.
  - split.
    + intros other Hne. by rewrite Hcl, lookup_insert_ne, lookup_delete_ne.
    + intros q old Hold. by apply process_domain_data_sync_keeps.
Qed.

(** C1 (as amended). Storing the same document chunks a second time
    through [upsert_chunks] leaves the store as the first call left it,
    and processing the same crawl data a second time outside sync mode
    leaves as many records as the first time, one per chunk.  Processing
    it in sync mode after that is not idempotent: every chunk is stored
    once more, under an id counted from the size of the collection, and
    the count doubles. *)
Theorem upsert_idempotent_outside_sync_mode
    (env : Env) (docs : list chunk) (ds : DocStore.doc_store)
    (dd : domain_data) (p : processor) :
  DocStore.store (DocStore.upsert_chunks env docs
                    (DocStore.upsert_chunks env docs ds).1).1
  = DocStore.store (DocStore.upsert_chunks env docs ds).1
  ∧ ∃ chunks,
      all_chunks_of env (pages dd) = Some chunks
      ∧ count_of (process_domain_data env dd false p).1 (collection_name env dd)
        = Some (length chunks)
      ∧ count_of (process_domain_data env dd false
                    (process_domain_data env dd false p).1).1
          (collection_name env dd)
        = Some (length chunks)
      ∧ count_of (process_domain_data env dd true
                    (process_domain_data env dd false p).1).1
          (collection_name env dd)
        = Some (2 * length chunks).
Proof.
  split; [apply upsert_chunks_again|].
  destruct (all_chunks_of_total env (pages dd)) as [chunks Hchunks].
  exists chunks. split; [done|].
  destruct (process_domain_data_fresh env dd p chunks Hchunks)
    as (p1 & Hrun1 & _ & Hcl1).
  destruct (process_domain_data_fresh env dd p1 chunks Hchunks)
    as (p2 & Hrun2 & _ & Hcl2).
  rewrite Hrun1. cbn [fst]. rewrite Hrun2. cbn [fst].
  split; [|split].
  - unfold count_of. rewrite Hcl1, lookup_insert_eq. simpl.
    unfold Chroma.count. by rewrite batch_of_size.
  - unfold count_of. rewrite Hcl2, lookup_insert_eq. simpl.
    unfold Chroma.count. by rewrite batch_of_size.
  - apply process_domain_data_sync_after_fresh; [done|].
    by rewrite Hcl1, lookup_insert_eq.
Qed.

End storing.

(** C1, counterexample.  The example site is analysed (four pages, one
    chunk each) and synced right away: no page has changed, and the
    collection goes from four records to eight. *)
Lemma sync_of_unchanged_pages_stores_chunks_again :
  let env := Example.env Chroma.SkipExisting in
  let a1 := (Analyzer.analyze_domain env Example.ascending Example.web
               "example.com" Example.session).1 in
  let a2 := (Analyzer.sync_domain env Example.ascending Example.web a1).1 in
  Analyzer.domain_count a1 = Some 4
  ∧ Analyzer.total_changes_of <$> Analyzer.current_domain_data a2 = Some 0
  ∧ Analyzer.domain_count a2 = Some 8
  ∧ ¬ (Analyzer.domain_count a2 = Analyzer.domain_count a1).
Proof. repeat split; by vm_compute. Qed.

(** ** The properties at concrete inputs *)

Lemma chunking_nonempty_iff_not_blank_witness :
  1 < 3
  ∧ (∃ chunks,
       Chunker.create_chunks 3 1 "a b c d e" ∅ = Some chunks
       ∧ (Py.all_space "a b c d e" = true → chunks = [])
       ∧ (Py.all_space "a b c d e" = false → chunks ≠ []))
  ∧ (Py.all_space "a b c d e" = true →
     DocChunker.chunk_text Example.tokenizer 3 1 "a b c d e" = [])
  ∧ (Py.all_space "a b c d e" = false →
     DocChunker.encode Example.tokenizer "a b c d e" ≠ [] →
     DocChunker.chunk_text Example.tokenizer 3 1 "a b c d e" ≠ []).
Proof.
  split; [lia|].
  apply (chunking_nonempty_iff_not_blank 3 1 "a b c d e" ∅ Example.tokenizer).
  lia.
Defined.

Lemma similarity_search_at_most_min_witness :
  let env := Example.env Chroma.SkipExisting in
  let p := Analyzer.processor Example.analysed in
  let ds := {| DocStore.session_id := "s"; DocStore.store := ∅ |} in
  let c := default ∅ (Processor.chroma_client p !! "domain_19") in
  (0 ≤ 2)%Z
  ∧ Processor.collection p = Some "domain_19"
  ∧ Processor.chroma_client p !! "domain_19" = Some c
  ∧ ∃ l, Processor.search_similar_content env "about" 2 p = Py.Returned l
         ∧ (Z.of_nat (length l) ≤ Z.min 2 (Z.of_nat (Chroma.count c)))%Z
         ∧ (Chroma.count c = 0 ∨ 2%Z = 0%Z → l = []).
Proof.
  intros env p ds c.
  assert (0 ≤ 2)%Z as H0 by lia.
  assert (Processor.collection p = Some "domain_19") as H1 by (by vm_compute).
  assert (Processor.chroma_client p !! "domain_19" = Some c) as H2
    by (by vm_compute).
  split; [done|]. split; [done|]. split; [done|].
  exact (proj1 (proj2 (proj2
           (similarity_search_at_most_min env "about" 2 ds p "domain_19" c H0 H1 H2)))).
Defined.

Lemma sync_crawl_classification_witness :
  let env := Example.env Chroma.SkipExisting in
  let cr := Analyzer.crawler Example.analysed in
  let result := (Crawler.crawl_domain env Example.ascending Example.web
                   "https://example.com" true cr).2 in
  let pg := default {| url := ""; title := ""; content := ""; headings := [];
                       word_count := 0; content_hash := ""; timestamp := "" |}
              (head (pages result)) in
  pg ∈ pages result
  ∧ ∃ updated_pages new_pages total_changes,
      sync result = SyncInfo updated_pages new_pages total_changes
      ∧ (url pg ∈ new_pages ↔ Crawler.last_crawl_hashes cr !! url pg = None)
      ∧ (url pg ∈ updated_pages ↔
           ∃ h, Crawler.last_crawl_hashes cr !! url pg = Some h
                ∧ h ≠ content_hash pg)
      ∧ (Crawler.last_crawl_hashes cr !! url pg = Some (content_hash pg) →
           (url pg ∉ new_pages) ∧ (url pg ∉ updated_pages)).
Proof.
  intros env cr result pg.
  assert (pg ∈ pages result) as Hin.
  { vm_compute. apply list_elem_of_here. }
  split; [exact Hin|].
  exact (sync_crawl_classification env Example.web Example.ascending
           "https://example.com" cr pg Hin).
Defined.


(* ===================================================================== *)
(** * Part III: further properties of the modelled code                   *)
(* ===================================================================== *)

(** ** Words of a text *)

Section words.
Import Py.

Lemma no_space_rev_app s acc :
  no_space (String.rev_app s acc) = no_space s && no_space acc.
Proof.
  revert acc. induction s as [|a s IH]; intros acc; simpl; [done|].
  rewrite IH. simpl. destruct (is_space a), (no_space s); done.
Qed.

Lemma app_cons a s t : String a s +:+ t = String a (s +:+ t).
Proof. done. Qed.

Lemma rev_app_rev_app s acc acc' :
  String.rev_app (String.rev_app s acc) acc' = String.rev_app acc (s +:+ acc').
Proof.
  revert acc acc'. induction s as [|a s IH]; intros acc acc'; [done|].
  rewrite app_cons. simpl. by rewrite IH.
Qed.

Lemma app_empty_r s : s +:+ "" = s.
Proof. induction s as [|a s IH]; [done|]. by rewrite app_cons, IH. Qed.

Lemma rev_rev s : String.rev (String.rev s) = s.
Proof. unfold String.rev. rewrite rev_app_rev_app. apply app_empty_r. Qed.

Lemma rev_ne_empty s : s ≠ "" → String.rev s ≠ "".
Proof. intros Hs Hr. apply Hs. by apply rev_app_empty in Hr as [? _]. Qed.

Lemma split_go_words s : ∀ cur,
  no_space cur = true → Forall is_word (split_go cur s).
Proof.
  induction s as [|a s IH]; intros cur Hcur; simpl.
  - destruct (decide (cur = "")); [constructor|].
    repeat constructor; [by apply rev_ne_empty|].
    unfold String.rev. by rewrite no_space_rev_app, Hcur.
  - destruct (is_space a) eqn:Ha.
    + apply Forall_app. split; [|by apply IH].
      destruct (decide (cur = "")); [constructor|].
      repeat constructor; [by apply rev_ne_empty|].
      unfold String.rev. by rewrite no_space_rev_app, Hcur.
    + apply IH. simpl. by rewrite Ha, Hcur.
Qed.

(** [s.split()] gives words. *)
Lemma split_words s : Forall is_word (split s).
Proof. by apply split_go_words. Qed.

Lemma split_go_word w s : ∀ cur,
  no_space w = true →
  split_go cur (w +:+ s) = split_go (String.rev_app w cur) s.
Proof.
  induction w as [|a w IH]; intros cur Hw; [done|].
  simpl in Hw. apply andb_true_iff in Hw as [Ha Hw].
  apply negb_true_iff in Ha. rewrite app_cons. simpl. rewrite Ha. by apply IH.
Qed.

Lemma split_go_blank cur s :
  split_go cur (" " +:+ s)
  = (if decide (cur = "") then [] else [String.rev cur]) ++ split_go "" s.
Proof. done. Qed.

(** Splitting the words joined by blanks gives the words back. *)
Lemma split_join ws : Forall is_word ws → split (join " " ws) = ws.
Proof.
  unfold split. induction ws as [|w ws IH]; intros Hws; [done|].
  apply Forall_cons in Hws as [[Hne Hw] Hws].
  assert (String.rev_app w "" ≠ "") as Hrev by (by apply rev_ne_empty).
  assert (String.rev (String.rev_app w "") = w) as Hrr by apply rev_rev.
  destruct ws as [|w' ws].
  - cbn [join]. rewrite <- (app_empty_r w) at 1. rewrite split_go_word by done.
    simpl. by rewrite decide_False, Hrr.
  - change (join " " (w :: w' :: ws)) with (w +:+ " " +:+ join " " (w' :: ws)).
    rewrite split_go_word, split_go_blank by done.
    by rewrite decide_False, Hrr, IH.
Qed.

Lemma split_go_count s : ∀ cur,
  2 * length (split_go cur s)
  ≤ String.length s + (if decide (cur = "") then 1 else 2).
Proof.
  induction s as [|a s IH]; intros cur; simpl.
  - destruct (decide (cur = "")); simpl; lia.
  - destruct (is_space a).
    + rewrite length_app. specialize (IH "").
      rewrite decide_True in IH by done.
      destruct (decide (cur = "")); simpl; lia.
    + specialize (IH (String a cur)). rewrite decide_False in IH by done.
      destruct (decide (cur = "")); lia.
Qed.

(** A text of [n] characters has at most [(n + 1) / 2] words. *)
Lemma split_count s : 2 * length (split s) ≤ String.length s + 1.
Proof. apply (split_go_count s ""). Qed.

(** The no-break space (U+00A0) and NEL (U+0085) separate words and
    count as blank, as they do for [split()], [strip()] and [\s]; the
    capital letters above U+00BF are lowered. *)
Lemma latin1_blanks_and_capitals :
  let nbsp := String "160" "" in
  let nel := String "133" "" in
  split ("a" +:+ nbsp +:+ "b c") = ["a"; "b"; "c"]
  ∧ Crawler.normalize_ws ("a" +:+ nbsp +:+ "b c") = "a b c"
  ∧ strip (nbsp +:+ "x" +:+ nel) = "x"
  ∧ all_space (nbsp +:+ nel) = true
  ∧ Chunker.create_chunks 1000 200 (nbsp +:+ nel) ∅ = Some []
  ∧ DocChunker.chunk_text Example.tokenizer 300 60 (nbsp +:+ nel) = []
  ∧ lower (String "192" (String "215" (String "222" "")))
    = String "224" (String "215" (String "254" "")).
Proof. repeat split; by vm_compute. Qed.

Lemma str_take_length n s : String.length (str_take n s) ≤ n.
Proof.
  revert s. induction n as [|n IH]; intros [|a s]; simpl; try lia.
  specialize (IH s). lia.
Qed.

End words.

(** ** The windows of [create_chunks] *)

Section chunk_windows.
Import Py.

Lemma foldl_snoc_imap {A B} (g : nat → A → B) (l : list A) : ∀ acc,
  foldl (λ acc x, acc ++ [g (length acc) x]) acc l
  = acc ++ imap (λ k, g (length acc + k)) l.
Proof.
  induction l as [|x l IH]; intros acc; simpl.
  - by rewrite (right_id_L [] (++)).
  - rewrite IH, length_app, <- (assoc_L (++)). simpl. f_equal.
    rewrite Nat.add_0_r. f_equal. apply imap_ext. intros k y _. simpl.
    f_equal. lia.
Qed.

Lemma create_chunks_imap chunk_size chunk_overlap content metadata :
  chunk_overlap < chunk_size →
  Chunker.create_chunks chunk_size chunk_overlap content metadata
  = Some (chunk_at chunk_size chunk_overlap (split content) metadata
            <$> seq 0 ((length (split content) + (chunk_size - chunk_overlap) - 1)
                       / (chunk_size - chunk_overlap))).
Proof.
  intros Hvalid. unfold Chunker.create_chunks, range_step.
  rewrite decide_False, decide_False by lia. simpl. f_equal.
  replace (Z.to_nat (Z.of_nat chunk_size - Z.of_nat chunk_overlap))
    with (chunk_size - chunk_overlap) by lia.
  set (step := chunk_size - chunk_overlap).
  set (m := (length (split content) + step - 1) / step).
  rewrite (foldl_snoc_imap
             (λ k i, {| text := join " " (take chunk_size (drop i (split content)));
                        chunk_metadata :=
                          <["chunk_size" :=
                              VInt (Z.of_nat (length (take chunk_size
                                                        (drop i (split content)))))]>
                            (<["chunk_index" := VInt (Z.of_nat k)]> metadata) |})).
  simpl. rewrite imap_fmap.
  apply list_eq. intros k. rewrite list_lookup_imap, list_lookup_fmap.
  destruct (seq 0 m !! k) as [j|] eqn:Hk; simpl; [|done].
  apply lookup_seq in Hk as [-> _]. done.
Qed.

Lemma window_nonempty chunk_size chunk_overlap (words : list string) k :
  chunk_overlap < chunk_size →
  k < (length words + (chunk_size - chunk_overlap) - 1) / (chunk_size - chunk_overlap) →
  1 ≤ length (window chunk_size chunk_overlap words k) ≤ chunk_size.
Proof.
  intros Hvalid Hk. unfold window. set (step := chunk_size - chunk_overlap) in *.
  assert (0 < step) as Hstep by (unfold step; lia).
  assert (k * step < length words) as Hlt.
  { pose proof (Nat.Div0.mul_div_le (length words + step - 1) step) as Hm.
    assert (step * S k ≤ step * ((length words + step - 1) / step))
      by (apply Nat.mul_le_mono_l; lia).
    nia. }
  rewrite length_take, length_drop. lia.
Qed.

Lemma window_words chunk_size chunk_overlap content k :
  split (join " " (window chunk_size chunk_overlap (split content) k))
  = window chunk_size chunk_overlap (split content) k.
Proof.
  apply split_join. unfold window.
  apply Forall_take, Forall_drop, split_words.
Qed.

Lemma create_chunks_lookup chunk_size chunk_overlap content metadata chunks k ch :
  chunk_overlap < chunk_size →
  Chunker.create_chunks chunk_size chunk_overlap content metadata = Some chunks →
  chunks !! k = Some ch →
  ch = chunk_at chunk_size chunk_overlap (split content) metadata k
  ∧ k < (length (split content) + (chunk_size - chunk_overlap) - 1)
        / (chunk_size - chunk_overlap).
Proof.
  intros Hvalid Hc Hk. rewrite create_chunks_imap in Hc by done.
  injection Hc as <-. rewrite list_lookup_fmap in Hk.
  destruct (seq _ _ !! k) as [j|] eqn:Hj; [|done].
  apply lookup_seq in Hj as [-> Hj]. simpl in Hk. by injection Hk as <-.
Qed.

Lemma create_chunks_windows_spec
    (chunk_size chunk_overlap : nat) (content : string) (metadata : dict) :
  chunk_overlap < chunk_size →
  ∃ chunks,
    Chunker.create_chunks chunk_size chunk_overlap content metadata = Some chunks
    ∧ length chunks
      = (length (split content) + (chunk_size - chunk_overlap) - 1)
        / (chunk_size - chunk_overlap)
    ∧ ∀ k ch, chunks !! k = Some ch →
        split (text ch)
        = take chunk_size (drop (k * (chunk_size - chunk_overlap)) (split content))
        ∧ 1 ≤ length (split (text ch)) ≤ chunk_size
        ∧ chunk_metadata ch !! "chunk_index" = Some (VInt (Z.of_nat k))
        ∧ chunk_metadata ch !! "chunk_size"
          = Some (VInt (Z.of_nat (length (split (text ch)))))
        ∧ ∀ key, key ≠ "chunk_index" → key ≠ "chunk_size" →
            chunk_metadata ch !! key = metadata !! key.
Proof.
  intros Hvalid. eexists. split; [by apply create_chunks_imap|].
  split; [by rewrite length_fmap, length_seq|].
  intros k ch Hk.
  destruct (create_chunks_lookup chunk_size chunk_overlap content metadata _ k ch
              Hvalid (create_chunks_imap _ _ _ _ Hvalid) Hk) as [-> Hlt].
  unfold chunk_at. cbn [text chunk_metadata]. rewrite window_words.
  split; [done|]. split; [by apply window_nonempty|].
  split; [by rewrite lookup_insert_ne, lookup_insert_eq|].
  split; [by rewrite lookup_insert_eq|].
  intros key H1 H2. by rewrite !lookup_insert_ne.
Qed.


Lemma lookup_window chunk_size chunk_overlap (words : list string) k i :
  i < chunk_size →
  window chunk_size chunk_overlap words k !! i
  = words !! (k * (chunk_size - chunk_overlap) + i).
Proof. intros Hi. unfold window. by rewrite lookup_take_lt, lookup_drop. Qed.

(** X2. [create_chunks] loses no word: word [j] of the text is word
    [j mod (size - overlap)] of chunk [j / (size - overlap)].  Two
    neighbouring chunks overlap: what follows the first
    [size - overlap] words of a chunk are the first [overlap] words of
    the next one. *)
Theorem create_chunks_covers
    (chunk_size chunk_overlap : nat) (content : string) (metadata : dict)
    (chunks : list chunk) :
  chunk_overlap < chunk_size →
  Chunker.create_chunks chunk_size chunk_overlap content metadata = Some chunks →
  (∀ j word, split content !! j = Some word →
     ∃ ch, chunks !! (j / (chunk_size - chunk_overlap)) = Some ch
           ∧ split (text ch) !! (j mod (chunk_size - chunk_overlap)) = Some word)
  ∧ (∀ k ch ch', chunks !! k = Some ch → chunks !! S k = Some ch' →
       drop (chunk_size - chunk_overlap) (split (text ch))
       = take chunk_overlap (split (text ch'))).
Proof.
  intros Hvalid Hc. set (step := chunk_size - chunk_overlap).
  assert (0 < step) as Hstep by (unfold step; lia).
  split.
  - intros j word Hj.
    assert (j < length (split content)) as Hlen by (by eapply lookup_lt_Some).
    assert (j / step < (length (split content) + step - 1) / step) as Hk.
    { apply Nat.Div0.div_lt_upper_bound.
      pose proof (Nat.Div0.mul_div_le j step).
      pose proof (Nat.Div0.div_mod (length (split content) + step - 1) step) as Hd.
      pose proof (Nat.mod_upper_bound (length (split content) + step - 1) step).
      nia. }
    rewrite create_chunks_imap in Hc by done. injection Hc as <-.
    eexists. split.
    { rewrite list_lookup_fmap, lookup_seq_lt by done. done. }
    unfold chunk_at. cbn [text]. rewrite window_words, lookup_window.
    + fold step. rewrite <- Hj. f_equal.
      pose proof (Nat.Div0.div_mod j step). lia.
    + pose proof (Nat.mod_upper_bound j step). unfold step in *. lia.
  - intros k ch ch' Hk Hk'.
    destruct (create_chunks_lookup _ _ _ _ _ _ _ Hvalid Hc Hk) as [-> _].
    destruct (create_chunks_lookup _ _ _ _ _ _ _ Hvalid Hc Hk') as [-> _].
    unfold chunk_at. cbn [text]. rewrite !window_words. unfold window. fold step.
    rewrite take_take, Nat.min_l by lia.
    replace chunk_size with (step + chunk_overlap) at 1 by (unfold step; lia).
    rewrite <- take_drop_commute, drop_drop. do 2 f_equal. lia.
Qed.

(** X3. The configurations that are not valid: [create_chunks] raises
    (the [ValueError] of a zero range step) exactly when the overlap
    equals the chunk size, whatever the text, and returns no chunk at
    all when the overlap is above the chunk size. *)
Theorem create_chunks_degenerate
    (chunk_size chunk_overlap : nat) (content : string) (metadata : dict) :
  (Chunker.create_chunks chunk_size chunk_overlap content metadata = None
   ↔ chunk_overlap = chunk_size)
  ∧ (chunk_size < chunk_overlap →
     Chunker.create_chunks chunk_size chunk_overlap content metadata = Some []).
Proof.
  unfold Chunker.create_chunks, range_step. split.
  - destruct (decide (Z.of_nat chunk_size - Z.of_nat chunk_overlap = 0)%Z).
    + split; [lia|done].
    + split; [|lia]. destruct (decide (_ < 0)%Z); done.
  - intros Hlt. rewrite decide_False, decide_True by lia. done.
Qed.

End chunk_windows.

(** ** Extracted pages *)

Section extracted_pages.
Import Py Crawler.
Context (env : Env) (w : Web).

Lemma str_take_all n s : String.length s ≤ n → str_take n s = s.
Proof.
  revert s. induction n as [|n IH]; intros [|a s]; simpl; try done; [lia|].
  intros Hn. f_equal. apply IH. lia.
Qed.

(** The whitespace normalisation keeps the words. *)
Lemma normalize_ws_words s : split (normalize_ws s) = split s.
Proof. apply split_join, split_words. Qed.

Lemma normalize_ws_idem s : normalize_ws (normalize_ws s) = normalize_ws s.
Proof. unfold normalize_ws at 1. by rewrite normalize_ws_words. Qed.

Lemma extract_content_page_spec (html u : string) (pg : page) :
  extract_content env w html u = Some pg →
  url pg = u
  ∧ String.length (content pg) ≤ Config.MAX_CONTENT_LENGTH
  ∧ word_count pg = length (split (content pg))
  ∧ 2 * word_count pg ≤ Config.MAX_CONTENT_LENGTH + 1
  ∧ content_hash pg = md5_hex env (content pg)
  ∧ ∀ sp, parse_html w html = Some sp →
      String.length (normalize_ws (soup_main sp)) ≤ Config.MAX_CONTENT_LENGTH →
      content pg = normalize_ws (soup_main sp)
      ∧ split (content pg) = split (soup_main sp)
      ∧ normalize_ws (content pg) = content pg.
Proof.
  unfold extract_content. intros Hpg.
  destruct (parse_html w html) as [sp|] eqn:Hsp; [|done].
  cbn [mbind option_bind] in Hpg.
  pose proof (str_take_length Config.MAX_CONTENT_LENGTH (normalize_ws (soup_main sp)))
    as Hlen.
  pose proof (split_count (str_take Config.MAX_CONTENT_LENGTH
                             (normalize_ws (soup_main sp)))) as Hcount.
  pose proof (str_take_all Config.MAX_CONTENT_LENGTH (normalize_ws (soup_main sp)))
    as Hall.
  remember (str_take Config.MAX_CONTENT_LENGTH (normalize_ws (soup_main sp)))
    as c eqn:Hc.
  clear Hc. injection Hpg as <-. cbn [url content word_count content_hash].
  split; [reflexivity|]. split; [exact Hlen|]. split; [reflexivity|].
  split; [lia|]. split; [reflexivity|].
  intros sp' [= <-] Hshort. rewrite Hall by exact Hshort.
  split; [reflexivity|].
  split; [apply normalize_ws_words|apply normalize_ws_idem].
Qed.

(** X4. The page that [extract_content] builds carries the URL it was
    given; its content has at most [MAX_CONTENT_LENGTH] characters,
    [word_count] is the number of words of that content (so at most
    half of [MAX_CONTENT_LENGTH + 1]) and [content_hash] is the hash
    of that content.  When the normalised text fits the limit, the
    content is the normalised text: it has the words of the extracted
    text and normalising it again changes nothing. *)
Theorem extract_content_page (html u : string) (pg : page) :
  extract_content env w html u = Some pg →
  url pg = u
  ∧ String.length (content pg) ≤ Config.MAX_CONTENT_LENGTH
  ∧ word_count pg = length (split (content pg))
  ∧ 2 * word_count pg ≤ Config.MAX_CONTENT_LENGTH + 1
  ∧ content_hash pg = md5_hex env (content pg)
  ∧ ∀ sp, parse_html w html = Some sp →
      String.length (normalize_ws (soup_main sp)) ≤ Config.MAX_CONTENT_LENGTH →
      content pg = normalize_ws (soup_main sp)
      ∧ split (content pg) = split (soup_main sp)
      ∧ normalize_ws (content pg) = content pg.
Proof. exact (extract_content_page_spec html u pg). Qed.

Lemma accepted_page_chunks_spec (u : string) (pg : page) :
  accepted env w u = Some pg →
  50 < length (split (content pg))
  ∧ ∃ chunks,
      Chunker.create_chunks Config.CHUNK_SIZE Config.CHUNK_OVERLAP
        (content pg) (Processor.page_metadata env pg) = Some chunks
      ∧ 1 ≤ length chunks ≤ 7
      ∧ ∀ ch, ch ∈ chunks →
          chunk_metadata ch !! "url" = Some (VStr u)
          ∧ chunk_metadata ch !! "content_hash"
            = Some (VStr (md5_hex env (content pg)))
          ∧ 1 ≤ length (split (text ch)) ≤ Config.CHUNK_SIZE.
Proof.
  unfold accepted. intros Hacc.
  destruct (html_unusable _); [done|].
  destruct (extract_content env w _ u) as [pg'|] eqn:Hex; [|done].
  simpl in Hacc. destruct (decide (50 < word_count pg')) as [Hwords|]; [|done].
  injection Hacc as ->.
  destruct (extract_content_page_spec _ _ _ Hex) as (Hurl & _ & Hwc & Hmax & Hhash & _).
  rewrite Hwc in Hwords, Hmax. split; [done|].
  destruct (create_chunks_windows_spec Config.CHUNK_SIZE Config.CHUNK_OVERLAP
              (content pg) (Processor.page_metadata env pg))
    as (chunks & Hchunks & Hlen & Hall);
    [unfold Config.CHUNK_SIZE, Config.CHUNK_OVERLAP; lia|].
  exists chunks. split; [done|].
  assert (Config.MAX_CONTENT_LENGTH = 100 * 100) as Hcap by reflexivity.
  rewrite Hcap in Hmax.
  unfold Config.CHUNK_SIZE, Config.CHUNK_OVERLAP in *.
  replace (1000 - 200) with 800 in * by lia.
  split.
  - rewrite Hlen. split.
    + apply (Nat.div_le_lower_bound _ 800 1); lia.
    + cut ((length (split (content pg)) + 800 - 1) / 800 < 8); [lia|].
      apply Nat.Div0.div_lt_upper_bound. lia.
  - intros ch [k Hk]%list_elem_of_lookup_1.
    destruct (Hall k ch Hk) as (_ & Hsize & _ & _ & Hkeep).
    split; [|split; [|done]].
    + rewrite Hkeep by done. unfold Processor.page_metadata.
      rewrite !lookup_insert_ne by done. by rewrite lookup_insert_eq, Hurl.
    + rewrite Hkeep by done. unfold Processor.page_metadata.
      rewrite lookup_insert_ne by done. by rewrite lookup_insert_eq, Hhash.
Qed.

(** X5. A page that a crawl accepts has more than 50 words and gives
    between one and seven chunks under the configured chunk size and
    overlap; every chunk is tagged with the URL and the content hash
    of the page and has between one and [CHUNK_SIZE] words. *)
Theorem accepted_page_chunks (u : string) (pg : page) :
  accepted env w u = Some pg →
  50 < length (split (content pg))
  ∧ ∃ chunks,
      Chunker.create_chunks Config.CHUNK_SIZE Config.CHUNK_OVERLAP
        (content pg) (Processor.page_metadata env pg) = Some chunks
      ∧ 1 ≤ length chunks ≤ 7
      ∧ ∀ ch, ch ∈ chunks →
          chunk_metadata ch !! "url" = Some (VStr u)
          ∧ chunk_metadata ch !! "content_hash"
            = Some (VStr (md5_hex env (content pg)))
          ∧ 1 ≤ length (split (text ch)) ≤ Config.CHUNK_SIZE.
Proof. exact (accepted_page_chunks_spec u pg). Qed.

End extracted_pages.

(** ** Crawl results *)

Section crawl_results.
Import Py Crawler.
Context (env : Env) (w : Web).

Lemma filter_none {A} (P : A → Prop) `{!∀ x, Decision (P x)} (l : list A) :
  (∀ x, x ∈ l → ¬ P x) → filter P l = [].
Proof.
  induction l as [|x l IH]; intros Hl; [done|].
  rewrite filter_cons, decide_False by (apply Hl; by left).
  apply IH. intros y Hy. apply Hl. by right.
Qed.

(** The URLs of the accepted pages are the URLs that are accepted. *)
Lemma url_accepted (urls : list string) :
  url <$> omap (accepted env w) urls
  = filter (λ u, is_Some (accepted env w u)) urls.
Proof.
  induction urls as [|x urls IH]; [done|].
  rewrite filter_cons. cbn [omap list_omap].
  destruct (accepted env w x) as [pg|] eqn:Hx.
  - rewrite decide_True by done. rewrite fmap_cons, IH.
    by rewrite (accepted_url env w x pg Hx).
  - rewrite decide_False by (by intros [? ?]). done.
Qed.

Lemma discover_pages_length o domain :
  1 ≤ length (discover_pages o w domain) ≤ Config.MAX_PAGES.
Proof.
  split.
  - assert (domain ∈ discover_pages o w domain) as Hin.
    { apply elem_of_discover_pages. unfold urls_to_crawl. by left. }
    destruct (discover_pages o w domain); [by apply elem_of_nil in Hin|simpl; lia].
  - etrans.
    + apply submseteq_length, NoDup_submseteq; [apply discover_pages_NoDup|].
      intros u Hu. by apply elem_of_discover_pages in Hu.
    + unfold urls_to_crawl. rewrite length_app. cbn [length].
      destruct (soup_links w domain (fetch_html w domain)); simpl length.
      * rewrite length_take. unfold Config.MAX_PAGES. lia.
      * unfold Config.MAX_PAGES. lia.
Qed.

(** X6. The crawl set of [discover_pages] has no repeats and between
    one and [MAX_PAGES] URLs; it is the seed alone when fetching or
    parsing the seed page raises; otherwise every URL of it other than
    the seed is a link of the seed page. *)
Theorem discover_pages_budget (o : SetOrder) (domain : string) :
  NoDup (discover_pages o w domain)
  ∧ 1 ≤ length (discover_pages o w domain) ≤ Config.MAX_PAGES
  ∧ (soup_links w domain (fetch_html w domain) = None →
     discover_pages o w domain = [domain])
  ∧ (∀ raw u, soup_links w domain (fetch_html w domain) = Some raw →
       u ∈ discover_pages o w domain → u = domain ∨ u ∈ raw).
Proof.
  split; [apply discover_pages_NoDup|]. split; [apply discover_pages_length|].
  split.
  - intros Hraise. unfold discover_pages, urls_to_crawl. rewrite Hraise.
    apply Permutation_singleton_r. rewrite set_to_list_perm.
    change (list_to_set ([domain] ++ [])) with ({[domain]} ∪ (∅ : gset string)).
    by rewrite (right_id_L ∅ (∪)), elements_singleton.
  - intros raw u Hraw Hu. apply elem_of_discover_pages in Hu.
    rewrite (urls_to_crawl_links w domain raw Hraw) in Hu.
    apply elem_of_cons in Hu as [->|Hu]; [by left|right].
    apply elem_of_take in Hu as (i & Hu & _).
    apply list_elem_of_lookup_2, elem_of_prioritize, list_elem_of_filter in Hu.
    by destruct Hu.
Qed.

(** One iteration of the crawl loop, in either mode. *)
Lemma crawl_step_any sync_mode cr acc x :
  ∃ cr1 acc1,
    crawl_step env w sync_mode (cr, acc) x = (cr1, acc1)
    ∧ crawled_data acc1 = crawled_data acc ++ option_list (accepted env w x)
    ∧ last_crawl_hashes cr1
      = from_option (λ pg, <[x := content_hash pg]> (last_crawl_hashes cr))
          (last_crawl_hashes cr) (accepted env w x)
    ∧ (sync_mode = false → updated acc1 = updated acc ∧ new acc1 = new acc).
Proof.
  unfold crawl_step, accepted.
  destruct (html_unusable (fetch_html w x)).
  { do 2 eexists. split; [done|]. simpl. by rewrite (right_id_L [] (++)). }
  destruct (extract_content env w (fetch_html w x) x) as [c|]; simpl.
  2:{ do 2 eexists. split; [done|]. simpl. by rewrite (right_id_L [] (++)). }
  destruct (decide (50 < word_count c)); simpl.
  - do 2 eexists. split; [done|]. simpl. split; [done|]. split; [done|].
    by intros ->.
  - do 2 eexists. split; [done|]. simpl. by rewrite (right_id_L [] (++)).
Qed.

Lemma crawl_loop_any sync_mode (urls : list string) : ∀ cr acc,
  ∃ cr' acc',
    foldl (crawl_step env w sync_mode) (cr, acc) urls = (cr', acc')
    ∧ crawled_data acc' = crawled_data acc ++ omap (accepted env w) urls
    ∧ (∀ u pg, u ∈ urls → accepted env w u = Some pg →
         last_crawl_hashes cr' !! u = Some (content_hash pg))
    ∧ (∀ u, u ∉ urls ∨ accepted env w u = None →
         last_crawl_hashes cr' !! u = last_crawl_hashes cr !! u)
    ∧ (sync_mode = false → updated acc' = updated acc ∧ new acc' = new acc).
Proof.
  induction urls as [|x urls IH]; intros cr acc.
  { exists cr, acc. simpl. rewrite (right_id_L [] (++)).
    split; [done|]. split; [done|]. split; [by intros ?? ?%elem_of_nil|done]. }
  destruct (crawl_step_any sync_mode cr acc x) as (cr1 & acc1 & Hstep & Hd & Hh & Hm).
  destruct (IH cr1 acc1) as (cr' & acc' & Hloop & Hd' & Hin & Hout & Hm').
  exists cr', acc'. cbn [foldl]. rewrite Hstep. split; [done|].
  split; [by rewrite Hd', Hd, omap_cons_option_list, (assoc_L (++))|].
  split; [|split].
  - intros u pg Hu Hacc. destruct (decide (u ∈ urls)) as [|Hnot]; [by eapply Hin|].
    apply elem_of_cons in Hu as [->|]; [|done].
    rewrite Hout by (by left). rewrite Hh, Hacc. simpl. by rewrite lookup_insert_eq.
  - intros u Hu. rewrite Hout.
    + rewrite Hh. destruct (accepted env w x) as [pg|] eqn:Hx; simpl; [|done].
      apply lookup_insert_ne. intros <-. destruct Hu as [Hu|Hu]; [|congruence].
      apply Hu. by left.
    + destruct Hu as [Hu|Hu]; [left|by right]. intros ?. apply Hu. by right.
  - intros Hmode. destruct (Hm Hmode) as [H1 H2], (Hm' Hmode) as [H3 H4].
    split; congruence.
Qed.

Lemma crawl_domain_result_spec
    (o : SetOrder) (seed : string) (sync_mode : bool) (cr : crawler) :
  let result := (crawl_domain env o w seed sync_mode cr).2 in
  pages result = omap (accepted env w) (discover_pages o w seed)
  ∧ domain result = Some seed
  ∧ total_pages result = length (pages result)
  ∧ length (pages result) ≤ Config.MAX_PAGES
  ∧ NoDup (url <$> pages result)
  ∧ (∀ pg, pg ∈ pages result →
       url pg ∈ discover_pages o w seed
       ∧ 50 < word_count pg
       ∧ html_unusable (fetch_html w (url pg)) = false)
  ∧ (sync_mode = false → sync result = EmptySyncInfo).
Proof.
  unfold crawl_domain, crawl_loop.
  destruct (crawl_loop_any sync_mode (discover_pages o w seed) cr
              {| crawled_data := []; updated := []; new := [] |})
    as (cr' & acc' & Hloop & Hd & _).
  rewrite Hloop. simpl in *. rewrite Hd.
  split; [done|]. split; [done|]. split; [done|]. split; [|split; [|split]].
  - rewrite <- (length_fmap url), url_accepted.
    etrans; [apply length_filter|apply discover_pages_length].
  - rewrite url_accepted. apply NoDup_filter, discover_pages_NoDup.
  - intros pg (u & Hu & Hacc)%list_elem_of_omap.
    rewrite (accepted_url env w u pg Hacc). split; [done|].
    unfold accepted in Hacc. destruct (html_unusable _); [done|].
    destruct (extract_content env w _ u) as [pg'|]; [|done]. simpl in Hacc.
    destruct (decide (50 < word_count pg')); [|done]. by injection Hacc as <-.
  - by intros ->.
Qed.

(** X7. What [crawl_domain] returns, in either mode: the pages are the
    accepted pages of the discovered URLs, in crawl order;
    [total_pages] is their number, at most [MAX_PAGES]; no URL occurs
    twice among them; every page belongs to a discovered URL whose
    document was usable and has more than 50 words; outside sync mode
    [sync_info] is empty. *)
Theorem crawl_domain_result
    (o : SetOrder) (seed : string) (sync_mode : bool) (cr : crawler) :
  let result := (crawl_domain env o w seed sync_mode cr).2 in
  pages result = omap (accepted env w) (discover_pages o w seed)
  ∧ domain result = Some seed
  ∧ total_pages result = length (pages result)
  ∧ length (pages result) ≤ Config.MAX_PAGES
  ∧ NoDup (url <$> pages result)
  ∧ (∀ pg, pg ∈ pages result →
       url pg ∈ discover_pages o w seed
       ∧ 50 < word_count pg
       ∧ html_unusable (fetch_html w (url pg)) = false)
  ∧ (sync_mode = false → sync result = EmptySyncInfo).
Proof. exact (crawl_domain_result_spec o seed sync_mode cr). Qed.

(** X8. After a domain crawl, in either mode, [last_crawl_hashes] maps
    the URL of every returned page to the content hash of that page,
    and is as before the crawl at every other URL. *)
Theorem crawl_domain_records_hashes
    (o : SetOrder) (domain : string) (sync_mode : bool) (cr : crawler) :
  let result := crawl_domain env o w domain sync_mode cr in
  (∀ pg, pg ∈ pages result.2 →
     last_crawl_hashes result.1 !! url pg = Some (content_hash pg))
  ∧ (∀ u, u ∉ url <$> pages result.2 →
       last_crawl_hashes result.1 !! u = last_crawl_hashes cr !! u).
Proof.
  unfold crawl_domain, crawl_loop.
  destruct (crawl_loop_any sync_mode (discover_pages o w domain) cr
              {| crawled_data := []; updated := []; new := [] |})
    as (cr' & acc' & Hloop & Hd & Hin & Hout & _).
  rewrite Hloop. simpl in *. rewrite Hd. split.
  - intros pg (u & Hu & Hacc)%list_elem_of_omap.
    rewrite (accepted_url env w u pg Hacc). by apply Hin.
  - intros u Hu. apply Hout. rewrite url_accepted, list_elem_of_filter in Hu.
    destruct (decide (u ∈ discover_pages o w domain)); [|by left].
    right. destruct (accepted env w u) eqn:Hacc; [|done].
    destruct Hu. by split.
Qed.

End crawl_results.

(** ** Sync reports *)

Section sync_reports.
Import Py Crawler.
Context (env : Env) (w : Web).

(** The result of a sync crawl, with its lists written out. *)
Lemma crawl_domain_sync env' o domain cr :
  (crawl_domain env' o w domain true cr).2
  = {| domain := Some domain;
       urls := [];
       pages := omap (accepted env' w) (discover_pages o w domain);
       failed_urls := [];
       total_pages := length (omap (accepted env' w) (discover_pages o w domain));
       crawl_date := now_iso env';
       sync :=
         let updated_pages :=
           filter (λ u, is_updated env' w (last_crawl_hashes cr) u = true)
             (discover_pages o w domain) in
         let new_pages :=
           filter (λ u, is_new env' w (last_crawl_hashes cr) u = true)
             (discover_pages o w domain) in
         SyncInfo updated_pages new_pages (length updated_pages + length new_pages) |}.
Proof.
  unfold crawl_domain, crawl_loop.
  destruct (crawl_loop_sync env' w (discover_pages o w domain) cr
              {| crawled_data := []; updated := []; new := [] |}
              (discover_pages_NoDup w o domain))
    as (cr' & acc' & Hloop & Hd & Hn & Hu).
  rewrite Hloop. simpl in *. by rewrite Hd, Hn, Hu.
Qed.

(** X9. The change lists of a sync crawl name crawled pages only, no
    URL twice, and no URL in both lists; [total_changes] is the sum of
    their lengths and at most [total_pages].  A crawler that holds no
    hash reports every crawled page as new and none as updated. *)
Theorem sync_info_within_pages (o : SetOrder) (domain : string) (cr : crawler) :
  let result := (crawl_domain env o w domain true cr).2 in
  ∃ updated_pages new_pages,
    sync result
    = SyncInfo updated_pages new_pages (length updated_pages + length new_pages)
    ∧ NoDup (updated_pages ++ new_pages)
    ∧ (∀ u, u ∈ updated_pages ++ new_pages → u ∈ url <$> pages result)
    ∧ length updated_pages + length new_pages ≤ total_pages result
    ∧ (last_crawl_hashes cr = ∅ →
       updated_pages = [] ∧ new_pages = url <$> pages result).
Proof.
  intros result. unfold result. rewrite crawl_domain_sync.
  cbn [sync pages total_pages]. do 2 eexists. split; [done|].
  set (urls := discover_pages o w domain).
  assert (NoDup urls) as Hnd by apply discover_pages_NoDup.
  assert (∀ u,
    u ∈ filter (λ u, is_updated env w (last_crawl_hashes cr) u = true) urls
        ++ filter (λ u, is_new env w (last_crawl_hashes cr) u = true) urls →
    u ∈ url <$> omap (accepted env w) urls) as Hsub.
  { intros u Hu. rewrite url_accepted. apply list_elem_of_filter.
    apply elem_of_app in Hu as [Hu|Hu]; apply list_elem_of_filter in Hu as [Hp Hin];
      (split; [|done]).
    - unfold is_updated in Hp. by destruct (accepted env w u).
    - unfold is_new in Hp. by destruct (accepted env w u). }
  assert (NoDup
    (filter (λ u, is_updated env w (last_crawl_hashes cr) u = true) urls
     ++ filter (λ u, is_new env w (last_crawl_hashes cr) u = true) urls)) as Hnd'.
  { apply NoDup_app. split; [by apply NoDup_filter|]. split; [|by apply NoDup_filter].
    intros u [Hup _]%list_elem_of_filter [Hnew _]%list_elem_of_filter.
    unfold is_updated in Hup. unfold is_new in Hnew.
    destruct (accepted env w u); [|done].
    by destruct (last_crawl_hashes cr !! u). }
  split; [done|]. split; [done|]. split.
  - rewrite <- length_app, <- (length_fmap url).
    by apply submseteq_length, NoDup_submseteq.
  - intros Hempty. rewrite Hempty. split.
    + apply filter_none. intros u _. unfold is_updated.
      rewrite lookup_empty. by destruct (accepted env w u).
    + rewrite url_accepted. apply filter_agree_in. intros u _.
      unfold is_new. rewrite lookup_empty.
      destruct (accepted env w u); [|split; [done|by intros [? ?]]].
      split; [by eexists|done].
Qed.

(** The pages a crawl accepts do not depend on the clock, and their
    hashes depend on the environment through the hash function only. *)
Lemma accepted_other_env env2 u pg2 :
  md5_hex env2 = md5_hex env →
  accepted env2 w u = Some pg2 →
  ∃ pg, accepted env w u = Some pg ∧ content_hash pg = content_hash pg2.
Proof.
  intros Hmd5. unfold accepted, extract_content.
  destruct (html_unusable (fetch_html w u)); [done|].
  destruct (parse_html w (fetch_html w u)) as [sp|]; [|done].
  cbn [mbind option_bind].
  remember (str_take Config.MAX_CONTENT_LENGTH (normalize_ws (soup_main sp)))
    as c eqn:Hc.
  clear Hc. cbn [word_count].
  destruct (decide (50 < length (split c))); [|done].
  intros [= <-]. eexists. split; [done|]. cbn [content_hash]. by rewrite Hmd5.
Qed.

(** X10. A sync crawl that follows a crawl of the same domain (in
    either mode) over an unchanged web reports no updated and no new
    page, whatever the iteration order of the URL sets and the time of
    the two crawls. *)
Theorem sync_right_after_crawl_reports_no_change
    (env2 : Env) (o o2 : SetOrder) (domain : string) (sync_mode : bool)
    (cr : crawler) :
  md5_hex env2 = md5_hex env →
  sync (crawl_domain env2 o2 w domain true
          (crawl_domain env o w domain sync_mode cr).1).2
  = SyncInfo [] [] 0.
Proof.
  intros Hmd5. rewrite crawl_domain_sync. cbn [sync].
  unfold crawl_domain, crawl_loop.
  destruct (crawl_loop_any env w sync_mode (discover_pages o w domain) cr
              {| crawled_data := []; updated := []; new := [] |})
    as (cr' & acc' & Hloop & _ & Hin & _).
  rewrite Hloop. cbn [fst].
  assert (∀ u pg2, u ∈ discover_pages o2 w domain →
            accepted env2 w u = Some pg2 →
            last_crawl_hashes cr' !! u = Some (content_hash pg2)) as Hrec.
  { intros u pg2 Hu Hacc.
    destruct (accepted_other_env env2 u pg2 Hmd5 Hacc) as (pg & Hpg & <-).
    apply Hin; [|done]. apply elem_of_discover_pages.
    by apply elem_of_discover_pages in Hu. }
  rewrite !filter_none; [done|..].
  - intros u Hu. unfold is_new.
    destruct (accepted env2 w u) as [pg2|] eqn:Hacc; [|done].
    by rewrite (Hrec u pg2 Hu Hacc).
  - intros u Hu. unfold is_updated.
    destruct (accepted env2 w u) as [pg2|] eqn:Hacc; [|done].
    rewrite (Hrec u pg2 Hu Hacc). rewrite bool_decide_eq_false_2; [done|].
    by intros [].
Qed.

End sync_reports.

(** ** Crawls of URL lists *)

Section url_lists.
Import Py Crawler.
Context (env : Env) (w : Web).

Lemma accepted_not_fails u pg :
  accepted env w u = Some pg → fails env w u = false.
Proof.
  unfold accepted, fails. destruct (html_unusable _); [done|].
  destruct (extract_content env w (fetch_html w u) u) as [pg'|]; [|done].
  intros _. cbn [orb]. by rewrite bool_decide_eq_false_2.
Qed.

Lemma accepted_or_failed (l : list string) :
  length (omap (accepted env w) l) + length (filter (λ u, fails env w u = true) l)
  ≤ length l.
Proof.
  induction l as [|x l IH]; [done|].
  rewrite filter_cons. cbn [omap list_omap].
  destruct (accepted env w x) as [pg|] eqn:Hx.
  - rewrite (accepted_not_fails x pg Hx). rewrite decide_False by done.
    simpl. lia.
  - destruct (decide _); simpl; lia.
Qed.

(** X11. The result of [crawl_specific_urls]: [total_pages] is the
    number of pages; pages and failed URLs together are at most as
    many as the URLs given; the URLs of the pages, and the failed
    URLs, are taken from the scheme-prefixed input in input order;
    each of them starts with [http://] or [https://]; every page has
    more than 50 words and its URL is not among the failed ones. *)
Theorem crawl_specific_urls_accounts (urls : list string) :
  let result := crawl_specific_urls env w urls in
  total_pages result = length (pages result)
  ∧ length (pages result) + length (failed_urls result) ≤ length urls
  ∧ url <$> pages result `sublist_of` with_scheme <$> urls
  ∧ failed_urls result `sublist_of` with_scheme <$> urls
  ∧ (∀ u, u ∈ (url <$> pages result) ++ failed_urls result →
       startswith "http://" u || startswith "https://" u = true)
  ∧ (∀ pg, pg ∈ pages result →
       50 < word_count pg ∧ url pg ∉ failed_urls result).
Proof.
  intros result.
  destruct (crawl_specific_urls_spec env w urls) as (Hp & Hf & Hdisj).
  fold result in Hp, Hf, Hdisj.
  assert (total_pages result = length (pages result)) as Htotal.
  { unfold result, crawl_specific_urls.
    by destruct (foldl _ _ _) as [crawled failed]. }
  split; [done|]. rewrite Hp, Hf, url_accepted.
  split; [|split; [|split; [|split]]].
  - etrans; [apply accepted_or_failed|]. by rewrite length_fmap.
  - apply sublist_filter.
  - apply sublist_filter.
  - intros u Hu.
    assert (u ∈ with_scheme <$> urls) as (u0 & -> & _)%list_elem_of_fmap.
    { apply elem_of_app in Hu as [Hu|Hu]; by apply list_elem_of_filter in Hu as [_ ?]. }
    apply with_scheme_has_scheme.
  - intros pg Hpg. split.
    + apply list_elem_of_omap in Hpg as (u & _ & Hacc).
      unfold accepted in Hacc. destruct (html_unusable _); [done|].
      destruct (extract_content env w _ u) as [pg'|]; [|done]. simpl in Hacc.
      destruct (decide (50 < word_count pg')); [|done]. by injection Hacc as <-.
    + rewrite <- Hf. apply Hdisj. by rewrite Hp.
Qed.

End url_lists.

(** ** Record ids of a domain collection *)

Section record_ids.
Import Py Processor.

Lemma chunk_id_eq i j : chunk_id i = chunk_id j → i = j.
Proof.
  unfold chunk_id. intros H.
  by apply (inj (String.app "chunk_")), (inj pretty) in H.
Qed.

Lemma batch_of_dense chunks :
  dense_ids (list_to_map (batch_of 0 chunks)).
Proof.
  intros id. unfold Chroma.count. rewrite batch_of_size. split.
  - intros [r (i & ch & Hi & -> & _)%batch_of_lookup].
    exists i. rewrite Nat.add_0_r. split; [by eapply lookup_lt_Some|done].
  - intros (i & Hi & ->). destruct (lookup_lt_is_Some_2 chunks i Hi) as [ch Hch].
    exists (record_of ch). apply batch_of_lookup. exists i, ch.
    by rewrite Nat.add_0_r.
Qed.

Lemma batch_of_beyond (c : gmap string Chroma.record) chunks :
  dense_ids c →
  Forall (λ i, c !! i = None) (batch_of (Chroma.count c) chunks).*1.
Proof.
  intros Hdense. apply Forall_forall. intros id Hid.
  rewrite batch_of_keys in Hid. apply list_elem_of_fmap in Hid as (k & -> & _).
  apply eq_None_not_Some. intros (i & Hi & Heq%chunk_id_eq)%Hdense. lia.
Qed.

Lemma batch_of_disjoint (c : gmap string Chroma.record) chunks :
  dense_ids c → c ##ₘ list_to_map (batch_of (Chroma.count c) chunks).
Proof.
  intros Hdense. apply map_disjoint_spec. intros id x y Hx Hy.
  pose proof (batch_of_beyond c chunks Hdense) as Hfresh.
  rewrite Forall_forall in Hfresh. rewrite Hfresh in Hx; [done|].
  apply (elem_of_list_to_map_2 _ id y) in Hy.
  apply list_elem_of_fmap. by exists (id, y).
Qed.

Lemma append_dense (c : gmap string Chroma.record) chunks :
  dense_ids c →
  Chroma.count (c ∪ list_to_map (batch_of (Chroma.count c) chunks))
  = Chroma.count c + length chunks
  ∧ dense_ids (c ∪ list_to_map (batch_of (Chroma.count c) chunks)).
Proof.
  intros Hdense.
  assert (Chroma.count (c ∪ list_to_map (batch_of (Chroma.count c) chunks))
          = Chroma.count c + length chunks) as Hsize.
  { unfold Chroma.count at 1.
    rewrite map_size_disj_union by (by apply batch_of_disjoint).
    by rewrite batch_of_size. }
  split; [done|]. intros id. split.
  - intros [(i & Hi & ->)%Hdense|[r (k & ch & Hk & -> & _)%batch_of_lookup]]%lookup_union_is_Some.
    + exists i. split; [lia|done].
    + exists (k + Chroma.count c). apply lookup_lt_Some in Hk. split; [lia|done].
  - intros (i & Hi & ->). apply lookup_union_is_Some.
    destruct (decide (i < Chroma.count c)) as [Hlt|Hge];
      [left; apply Hdense; by exists i|].
    right. destruct (lookup_lt_is_Some_2 chunks (i - Chroma.count c)) as [ch Hch];
      [lia|].
    exists (record_of ch). apply batch_of_lookup. exists (i - Chroma.count c), ch.
    split; [done|]. split; [f_equal; lia|done].
Qed.

(** X12. [process_domain_data] outside sync mode leaves a collection
    whose ids are [chunk_0] .. [chunk_{count-1}].  In sync mode, on a
    collection with such ids, it keeps every record, stores chunk [i]
    of the crawl under [chunk_{count+i}], so that [count] grows by the
    number of chunks and the ids stay of that shape, and leaves every
    other collection alone. *)
Theorem processing_keeps_ids_dense
    (env : Env) (dd : domain_data) (p : processor) :
  ∃ chunks,
    all_chunks_of env (pages dd) = Some chunks
    ∧ (∃ c0, chroma_client (process_domain_data env dd false p).1
               !! collection_name env dd = Some c0
             ∧ dense_ids c0)
    ∧ (∀ c, chroma_client p !! collection_name env dd = Some c →
         dense_ids c →
         ∃ c', chroma_client (process_domain_data env dd true p).1
                 !! collection_name env dd = Some c'
               ∧ dense_ids c'
               ∧ Chroma.count c' = Chroma.count c + length chunks
               ∧ (∀ id r, c !! id = Some r → c' !! id = Some r)
               ∧ (∀ i ch, chunks !! i = Some ch →
                    c' !! chunk_id (Chroma.count c + i) = Some (record_of ch))
               ∧ (∀ other, other ≠ collection_name env dd →
                    chroma_client (process_domain_data env dd true p).1 !! other
                    = chroma_client p !! other)).
Proof.
  destruct (all_chunks_of_total env (pages dd)) as [chunks Hchunks].
  exists chunks. split; [done|]. split.
  - destruct (process_domain_data_fresh env dd p chunks Hchunks)
      as (p' & Hp & _ & Hcl). rewrite Hp. cbn [fst].
    rewrite Hcl, lookup_insert_eq.
    eexists. split; [done|]. apply batch_of_dense.
  - intros c Hc Hdense. unfold process_domain_data.
    rewrite (open_collection_sync _ _ c Hc), Hchunks.
    set (name := collection_name env dd) in *.
    destruct (decide (chunks = [])) as [->|Hne].
    + exists c. destruct (sync dd); cbn [fst chroma_client length];
        (split; [done|]); (split; [done|]); (split; [lia|]);
        (split; [done|]); (split; [by intros ?? [=]|done]).
    + rewrite Hc. cbn [mbind option_bind].
      rewrite add_fresh;
        [|by rewrite batch_of_nil|apply batch_of_NoDup|by apply batch_of_beyond].
      destruct (append_dense c chunks Hdense) as [Hcount Hdense'].
      exists (c ∪ list_to_map (batch_of (Chroma.count c) chunks)).
      assert (∀ q : processor * outcome string,
                q.1 = {| chroma_client :=
                           <[name := c ∪ list_to_map
                                          (batch_of (Chroma.count c) chunks)]>
                             (chroma_client p);
                         collection := Some name;
                         domain_metadata :=
                           Some {| md_domain := domain_key dd;
                                   md_last_crawl := crawl_date dd;
                                   md_total_pages := total_pages dd |} |} →
                chroma_client q.1 !! name
                = Some (c ∪ list_to_map (batch_of (Chroma.count c) chunks))
                ∧ ∀ other, other ≠ name →
                    chroma_client q.1 !! other = chroma_client p !! other) as Hq.
      { intros q ->. cbn [chroma_client]. rewrite lookup_insert_eq.
        split; [done|]. intros other Hother. by rewrite lookup_insert_ne. }
      cbn [mbind option_bind].
      match goal with
      | |- context [chroma_client ?q.1 !! name] => destruct (Hq q) as [H1 H2]
      end.
      { by destruct (sync dd). }
      split; [done|]. split; [done|]. split; [done|].
      split; [|split; [|done]].
      * intros id r Hr. by apply lookup_union_Some_l.
      * intros i ch Hi. rewrite lookup_union_r.
        -- apply batch_of_lookup. exists i, ch. split; [done|].
           split; [f_equal; lia|done].
        -- pose proof (batch_of_beyond c chunks Hdense) as Hfresh.
           rewrite Forall_forall in Hfresh. apply Hfresh.
           rewrite batch_of_keys. apply list_elem_of_fmap. exists i.
           split; [f_equal; lia|]. apply elem_of_seq.
           apply lookup_lt_Some in Hi. lia.
Qed.

End record_ids.

(** ** Analysis sessions *)

Section analysis.
Import Py Analyzer.

Lemma process_domain_data_fresh_metadata env dd p :
  Processor.domain_metadata (Processor.process_domain_data env dd false p).1
  = Some {| Processor.md_domain := Processor.domain_key dd;
            Processor.md_last_crawl := crawl_date dd;
            Processor.md_total_pages := total_pages dd |}.
Proof.
  unfold Processor.process_domain_data. rewrite open_collection_fresh.
  destruct (Processor.all_chunks_of env (pages dd)) as [chunks|]; [|done].
  destruct (decide (chunks = [])); [done|].
  rewrite lookup_insert_eq. cbn [mbind option_bind].
  by destruct (Chroma.add _ _ _).
Qed.

Lemma all_chunks_of_accepted env w (pgs : list page) : ∀ chunks,
  Forall (λ pg, ∃ u, Crawler.accepted env w u = Some pg) pgs →
  Processor.all_chunks_of env pgs = Some chunks →
  length pgs ≤ length chunks ≤ 7 * length pgs.
Proof.
  induction pgs as [|pg pgs IH]; intros chunks Hpgs.
  { intros [= <-]. simpl. lia. }
  apply Forall_cons in Hpgs as [[u Hu] Hpgs]. cbn [Processor.all_chunks_of].
  destruct (accepted_page_chunks_spec env w u pg Hu) as (_ & first & -> & Hlen & _).
  cbn [mbind option_bind].
  destruct (Processor.all_chunks_of env pgs) as [more|]; [|done].
  cbn [mbind option_bind]. intros [= <-].
  specialize (IH more Hpgs eq_refl). rewrite length_app. cbn [length]. lia.
Qed.

Lemma prefix_app p s : String.prefix p (p +:+ s) = true.
Proof.
  induction p as [|a p IH]; [by destruct s|].
  rewrite app_cons. cbn [String.prefix]. by destruct (ascii_dec a a).
Qed.

Lemma scheme_not_uploads d :
  startswith "http://" d || startswith "https://" d = true →
  d ≠ "" ∧ startswith "uploads:" d = false.
Proof.
  destruct d as [|c d]; [done|]. unfold startswith. cbn [String.prefix].
  destruct (ascii_dec "h" c) as [<-|]; [|done]. intros _. done.
Qed.

(** What [sync_domain] does once its guards are passed. *)
Lemma sync_domain_crawls env o w a current md :
  current_domain a = Some current →
  current ≠ "" →
  startswith "session_chroma_" current = false →
  Processor.domain_metadata (processor a) = Some md →
  Processor.md_domain md ≠ "" →
  startswith "uploads:" (Processor.md_domain md) = false →
  ∃ a' message,
    sync_domain env o w a = (a', Crawled message)
    ∧ crawler a'
      = (Crawler.crawl_domain env o w (Processor.md_domain md) true (crawler a)).1
    ∧ current_domain a' = current_domain a.
Proof.
  intros Hc Hne Hs Hmd Hd Hup. unfold sync_domain. rewrite Hc.
  destruct current as [|c current]; [done|]. rewrite Hs, Hmd. simpl.
  destruct (Processor.md_domain md) as [|d original]; [done|]. rewrite Hup.
  destruct (Crawler.crawl_domain env o w (String d original) true (crawler a))
    as [cr dd].
  destruct (Processor.process_domain_data env dd true (processor a)) as [p [name|e]];
    do 2 eexists; by split.
Qed.

Lemma analyze_domain_outcome_spec
    (env : Env) (o : SetOrder) (w : Web) (domain : string) (a : analyzer) :
  let seed := Crawler.with_scheme domain in
  let found := omap (Crawler.accepted env w) (Crawler.discover_pages o w seed) in
  let result := analyze_domain env o w domain a in
  (pages <$> current_domain_data result.1) = Some found
  ∧ (found = [] →
     result.2 = Returned false
     ∧ processor result.1 = processor a
     ∧ current_domain result.1 = current_domain a)
  ∧ (found ≠ [] →
     ∃ chunks name,
       result.2 = Returned true
       ∧ Processor.all_chunks_of env found = Some chunks
       ∧ length found ≤ length chunks ≤ 7 * length found
       ∧ current_domain result.1 = Some name
       ∧ startswith "domain_" name = true
       ∧ Processor.collection (processor result.1) = Some name
       ∧ domain_count result.1 = Some (length chunks)
       ∧ Processor.md_domain <$> Processor.domain_metadata (processor result.1)
         = Some seed).
Proof.
  intros seed found result. unfold result, analyze_domain. fold seed.
  pose proof (crawl_domain_result_spec env w o seed false (crawler a)) as Hres.
  destruct (Crawler.crawl_domain env o w seed false (crawler a)) as [cr dd].
  cbn [snd] in Hres. destruct Hres as (Hpages & Hdomain & _). fold found in Hpages.
  destruct (decide (pages dd = [])) as [Hnil|Hsome].
  { cbn [fst snd current_domain_data processor current_domain fmap option_fmap option_map].
    split; [by rewrite Hpages|]. split; [done|]. intros Hne. congruence. }
  destruct (all_chunks_of_total env (pages dd)) as [chunks Hchunks].
  pose proof (process_domain_data_fresh_metadata env dd (processor a)) as Hmeta.
  destruct (process_domain_data_fresh env dd (processor a) chunks Hchunks)
    as (p' & Hp & Hcoll & Hcl).
  rewrite Hp in Hmeta |- *. cbn [fst] in Hmeta.
  cbn [fst snd current_domain_data processor current_domain fmap option_fmap option_map].
  split; [by rewrite Hpages|]. split; [intros Hnil; congruence|]. intros _.
  exists chunks, (Processor.collection_name env dd).
  rewrite Hpages in Hchunks. split; [done|]. split; [done|]. split.
  { apply (all_chunks_of_accepted env w found chunks); [|done].
    apply Forall_forall. intros pg (u & _ & Hu)%list_elem_of_omap. by exists u. }
  split; [done|]. split; [apply prefix_app|]. split; [done|]. split.
  - unfold domain_count. cbn [current_domain processor mbind option_bind].
    unfold Processor.count_of. rewrite Hcl, lookup_insert_eq. simpl.
    unfold Chroma.count. by rewrite batch_of_size.
  - rewrite Hmeta. simpl. unfold Processor.domain_key. by rewrite Hdomain.
Qed.

(** X13. The two ways [analyze_domain] ends.  It keeps the crawl
    result as [current_domain_data].  When no discovered URL of the
    scheme-prefixed domain is accepted, it reports the error and
    leaves processor and [current_domain] as they were.  Otherwise the
    analysis goes through: [current_domain] is the [domain_]
    collection the processor now refers to, that collection holds one
    record per chunk (at least one and at most seven per page), and
    the recorded domain is the scheme-prefixed domain. *)
Theorem analyze_domain_outcome
    (env : Env) (o : SetOrder) (w : Web) (domain : string) (a : analyzer) :
  let seed := Crawler.with_scheme domain in
  let found := omap (Crawler.accepted env w) (Crawler.discover_pages o w seed) in
  let result := analyze_domain env o w domain a in
  (pages <$> current_domain_data result.1) = Some found
  ∧ (found = [] →
     result.2 = Returned false
     ∧ processor result.1 = processor a
     ∧ current_domain result.1 = current_domain a)
  ∧ (found ≠ [] →
     ∃ chunks name,
       result.2 = Returned true
       ∧ Processor.all_chunks_of env found = Some chunks
       ∧ length found ≤ length chunks ≤ 7 * length found
       ∧ current_domain result.1 = Some name
       ∧ startswith "domain_" name = true
       ∧ Processor.collection (processor result.1) = Some name
       ∧ domain_count result.1 = Some (length chunks)
       ∧ Processor.md_domain <$> Processor.domain_metadata (processor result.1)
         = Some seed).
Proof. exact (analyze_domain_outcome_spec env o w domain a). Qed.

Lemma domain_prefix_not_session name :
  startswith "domain_" name = true →
  name ≠ "" ∧ startswith "session_chroma_" name = false.
Proof.
  destruct name as [|c name]; [done|]. unfold startswith. cbn [String.prefix].
  destruct (ascii_dec "d" c) as [<-|]; [|done]. intros _. done.
Qed.

(** X14. After a domain analysis that went through, [sync_domain] does
    not turn the request down: it crawls the analysed domain again in
    sync mode and keeps [current_domain]. *)
Theorem sync_after_analyze_domain_recrawls
    (env : Env) (o : SetOrder) (w : Web) (domain : string) (a : analyzer)
    (env2 : Env) (o2 : SetOrder) (w2 : Web) :
  (analyze_domain env o w domain a).2 = Returned true →
  ∃ a' message,
    sync_domain env2 o2 w2 (analyze_domain env o w domain a).1
    = (a', Crawled message)
    ∧ crawler a'
      = (Crawler.crawl_domain env2 o2 w2 (Crawler.with_scheme domain) true
           (crawler (analyze_domain env o w domain a).1)).1
    ∧ current_domain a' = current_domain (analyze_domain env o w domain a).1.
Proof.
  intros Hok.
  destruct (analyze_domain_outcome_spec env o w domain a) as (_ & Hnone & Hsome).
  cbv zeta in Hnone, Hsome.
  destruct (decide (omap (Crawler.accepted env w)
                      (Crawler.discover_pages o w (Crawler.with_scheme domain)) = []))
    as [Hnil|Hne].
  { destruct (Hnone Hnil) as [Hfalse _]. congruence. }
  destruct (Hsome Hne) as (chunks & name & _ & _ & _ & Hcur & Hpre & _ & _ & Hmeta).
  destruct (Processor.domain_metadata
              (processor (analyze_domain env o w domain a).1)) as [md|] eqn:Hmd;
    [|done].
  injection Hmeta as Hmeta.
  destruct (scheme_not_uploads _ (with_scheme_has_scheme domain)) as [Hne' Hup].
  destruct (domain_prefix_not_session name Hpre) as [Hname Hsess].
  rewrite <- Hmeta in Hne', Hup |- *.
  by apply (sync_domain_crawls env2 o2 w2 _ name md).
Qed.

Lemma analyze_specific_urls_outcome_spec
    (env : Env) (w : Web) (urls : list string) (a : analyzer) :
  let cleaned := strip <$> filter (λ u, strip u ≠ "") urls in
  let found := omap (Crawler.accepted env w) (Crawler.with_scheme <$> cleaned) in
  let result := analyze_specific_urls env w urls a in
  crawler result.1 = crawler a
  ∧ (found = [] →
     result.2 = Returned false
     ∧ processor result.1 = processor a
     ∧ current_domain result.1 = current_domain a)
  ∧ (found ≠ [] →
     ∃ chunks name,
       result.2 = Returned true
       ∧ (pages <$> current_domain_data result.1) = Some found
       ∧ Processor.all_chunks_of env found = Some chunks
       ∧ length found ≤ length chunks ≤ 7 * length found
       ∧ current_domain result.1 = Some name
       ∧ startswith "domain_" name = true
       ∧ Processor.collection (processor result.1) = Some name
       ∧ domain_count result.1 = Some (length chunks)
       ∧ Processor.md_domain <$> Processor.domain_metadata (processor result.1)
         = Some "multiple-urls").
Proof.
  intros cleaned found result. unfold result, analyze_specific_urls. fold cleaned.
  destruct (decide (cleaned = [])) as [Hclean|Hclean].
  { split; [done|]. split; [done|]. intros Hne. exfalso. apply Hne.
    unfold found. by rewrite Hclean. }
  destruct (crawl_specific_urls_spec env w cleaned) as (Hpages & _).
  fold found in Hpages.
  assert (domain (Crawler.crawl_specific_urls env w cleaned) = Some "multiple-urls")
    as Hdomain.
  { unfold Crawler.crawl_specific_urls. by destruct (foldl _ _ _). }
  set (dd := Crawler.crawl_specific_urls env w cleaned) in *.
  destruct (decide (pages dd = [])) as [Hnil|Hsome].
  { cbn [fst snd processor current_domain crawler].
    split; [done|]. split; [done|]. intros Hne. congruence. }
  destruct (all_chunks_of_total env (pages dd)) as [chunks Hchunks].
  pose proof (process_domain_data_fresh_metadata env dd (processor a)) as Hmeta.
  destruct (process_domain_data_fresh env dd (processor a) chunks Hchunks)
    as (p' & Hp & Hcoll & Hcl).
  rewrite Hp in Hmeta |- *. cbn [fst] in Hmeta.
  cbn [fst snd current_domain_data processor current_domain crawler
       fmap option_fmap option_map].
  split; [done|]. split; [intros Hnil; congruence|]. intros _.
  exists chunks, (Processor.collection_name env dd).
  rewrite Hpages in Hchunks. split; [done|]. split; [by rewrite Hpages|].
  split; [done|]. split.
  { apply (all_chunks_of_accepted env w found chunks); [|done].
    apply Forall_forall. intros pg (u & _ & Hu)%list_elem_of_omap. by exists u. }
  split; [done|]. split; [apply prefix_app|]. split; [done|]. split.
  - unfold domain_count. cbn [current_domain processor mbind option_bind].
    unfold Processor.count_of. rewrite Hcl, lookup_insert_eq. simpl.
    unfold Chroma.count. by rewrite batch_of_size.
  - rewrite Hmeta. simpl. unfold Processor.domain_key. by rewrite Hdomain.
Qed.

(** X15. The two ways [analyze_specific_urls] ends.  The crawler is
    never touched.  When none of the cleaned, scheme-prefixed URLs is
    accepted (in particular when the list is blank), it reports the
    error and leaves processor and [current_domain] as they were.
    Otherwise [current_domain] is the [domain_] collection the
    processor now refers to, that collection holds one record per
    chunk of the accepted pages, and the recorded domain is the
    string [multiple-urls]. *)
Theorem analyze_specific_urls_outcome
    (env : Env) (w : Web) (urls : list string) (a : analyzer) :
  let cleaned := strip <$> filter (λ u, strip u ≠ "") urls in
  let found := omap (Crawler.accepted env w) (Crawler.with_scheme <$> cleaned) in
  let result := analyze_specific_urls env w urls a in
  crawler result.1 = crawler a
  ∧ (found = [] →
     result.2 = Returned false
     ∧ processor result.1 = processor a
     ∧ current_domain result.1 = current_domain a)
  ∧ (found ≠ [] →
     ∃ chunks name,
       result.2 = Returned true
       ∧ (pages <$> current_domain_data result.1) = Some found
       ∧ Processor.all_chunks_of env found = Some chunks
       ∧ length found ≤ length chunks ≤ 7 * length found
       ∧ current_domain result.1 = Some name
       ∧ startswith "domain_" name = true
       ∧ Processor.collection (processor result.1) = Some name
       ∧ domain_count result.1 = Some (length chunks)
       ∧ Processor.md_domain <$> Processor.domain_metadata (processor result.1)
         = Some "multiple-urls").
Proof. exact (analyze_specific_urls_outcome_spec env w urls a). Qed.

(** X16. After an analysis of a URL list that went through,
    [sync_domain] does not turn the request down either: it runs a
    sync crawl with the string [multiple-urls] as the domain. *)
Theorem sync_after_analyze_specific_urls_crawls_placeholder
    (env : Env) (w : Web) (urls : list string) (a : analyzer)
    (env2 : Env) (o2 : SetOrder) (w2 : Web) :
  (analyze_specific_urls env w urls a).2 = Returned true →
  ∃ a' message,
    sync_domain env2 o2 w2 (analyze_specific_urls env w urls a).1
    = (a', Crawled message)
    ∧ crawler a'
      = (Crawler.crawl_domain env2 o2 w2 "multiple-urls" true (crawler a)).1
    ∧ current_domain a' = current_domain (analyze_specific_urls env w urls a).1.
Proof.
  intros Hok.
  destruct (analyze_specific_urls_outcome_spec env w urls a) as (Hcr & Hnone & Hsome).
  cbv zeta in Hcr, Hnone, Hsome.
  destruct (decide (omap (Crawler.accepted env w)
                      (Crawler.with_scheme
                         <$> (strip <$> filter (λ u, strip u ≠ "") urls)) = []))
    as [Hnil|Hne].
  { destruct (Hnone Hnil) as [Hfalse _]. congruence. }
  destruct (Hsome Hne)
    as (chunks & name & _ & _ & _ & _ & Hcur & Hpre & _ & _ & Hmeta).
  destruct (Processor.domain_metadata
              (processor (analyze_specific_urls env w urls a).1)) as [md|] eqn:Hmd;
    [|done].
  injection Hmeta as Hmeta.
  destruct (domain_prefix_not_session name Hpre) as [Hname Hsess].
  rewrite <- Hcr, <- Hmeta.
  apply (sync_domain_crawls env2 o2 w2 _ name md); try done; by rewrite Hmeta.
Qed.

End analysis.

(** ** New sessions *)

Section new_sessions.
Import Py Analyzer Session.

(** X17. The session that [/api/initialize] registers refers to the
    collection [session_chroma_<id>]; [sync_domain] turns it down and
    leaves it unchanged; the other collections of the database are
    untouched; when the session collection is new it is empty and a
    search with a count that is not negative returns the empty
    list. *)
Theorem new_session_is_empty_and_rejects_sync
    (env : Env) (o : SetOrder) (w : Web) (session_id : string)
    (cl : gmap string (gmap string Chroma.record)) :
  let a := new_session session_id cl in
  (∃ message, sync_domain env o w a = (a, Rejected message))
  ∧ current_domain a = Some (session_collection_name session_id)
  ∧ (∀ other, other ≠ session_collection_name session_id →
       Processor.chroma_client (processor a) !! other = cl !! other)
  ∧ (cl !! session_collection_name session_id = None →
     domain_count a = Some 0
     ∧ ∀ q k, (0 ≤ k)%Z →
         Processor.search_similar_content env q k (processor a) = Returned []).
Proof.
  intros a. unfold a, new_session, initialize.
  set (name := session_collection_name session_id).
  split.
  { apply (sync_domain_rejects_session_collection env o w _ name); [done|].
    apply prefix_app. }
  split; [done|]. split.
  { intros other Hother. cbn [processor Processor.chroma_client].
    destruct (cl !! name); [done|]. by rewrite lookup_insert_ne. }
  intros Hfresh. rewrite Hfresh. split.
  - unfold domain_count, Processor.count_of.
    cbn [current_domain processor Processor.chroma_client mbind option_bind].
    by rewrite lookup_insert_eq.
  - intros q k Hk.
    destruct (search_similar_content_spec env q k
                {| Processor.chroma_client := <[name := ∅]> cl;
                   Processor.collection := Some name;
                   Processor.domain_metadata := None |} name ∅ Hk eq_refl)
      as (l & Heq & _ & Hl).
    + cbn [Processor.chroma_client]. by rewrite lookup_insert_eq.
    + cbn [processor]. rewrite Heq. f_equal. apply Hl. by left.
Qed.

End new_sessions.

(** ** Record ids of the document store *)

Section document_ids.
Import Py DocStore.

Lemma pretty_N_go_digits x : ∀ s,
  all_digits s = true → all_digits (pretty_N_go x s) = true.
Proof.
  induction (N.lt_wf_0 x) as [x _ IH]; intros s Hs.
  assert (x = 0 ∨ 0 < x)%N as [->|Hpos] by lia; [by rewrite pretty_N_go_0|].
  rewrite pretty_N_go_step by done. apply IH; [by apply N.div_lt|].
  cbn [all_digits]. rewrite Hs, andb_true_r.
  unfold pretty_N_char. by repeat case_match.
Qed.

(** The decimal numeral of a natural number has digits only. *)
Lemma pretty_nat_digits (n : nat) : all_digits (pretty n) = true.
Proof.
  unfold pretty, pretty_nat, pretty, pretty_N.
  destruct (decide (N.of_nat n = 0%N)); [done|]. by apply pretty_N_go_digits.
Qed.

Lemma digits_sep_inj a : ∀ b f g,
  all_digits a = true → all_digits b = true →
  a +:+ String "_" f = b +:+ String "_" g → a = b ∧ f = g.
Proof.
  induction a as [|c a IH]; intros [|d b] f g Ha Hb Heq.
  - by injection Heq as ->.
  - rewrite app_cons in Heq. injection Heq as <- _.
    cbn [all_digits] in Hb. by apply andb_true_iff in Hb as [? _].
  - rewrite app_cons in Heq. injection Heq as -> _.
    cbn [all_digits] in Ha. by apply andb_true_iff in Ha as [? _].
  - rewrite !app_cons in Heq. injection Heq as -> Heq.
    cbn [all_digits] in Ha, Hb.
    apply andb_true_iff in Ha as [_ Ha]. apply andb_true_iff in Hb as [_ Hb].
    destruct (IH b f g Ha Hb Heq) as [-> ->]. done.
Qed.

(** Ids built for different positions differ, whatever the file names. *)
Lemma doc_id_inj sid i j f g :
  doc_id sid i f = doc_id sid j g → i = j ∧ str f = str g.
Proof.
  unfold doc_id. intros H.
  apply (inj (String.app "doc_")), (inj (String.app sid)),
        (inj (String.app "_")) in H.
  apply digits_sep_inj in H as [H ->]; [|apply pretty_nat_digits..].
  by apply (inj pretty) in H.
Qed.

Lemma add_one_fresh pol id r (c : gmap string Chroma.record) :
  c !! id = None → Chroma.add pol [(id, r)] c = Some (<[id := r]> c).
Proof.
  intros Hid. rewrite add_single.
  assert (c ∪ list_to_map [(id, r)] = <[id := r]> c) as ->.
  { by rewrite (insert_union_singleton_r c id r Hid). }
  destruct pol; [done|]. by rewrite decide_True.
Qed.

Lemma add_one_present pol id r (c : gmap string Chroma.record) :
  is_Some (c !! id) →
  Chroma.add pol [(id, r)] c = match pol with
                               | Chroma.SkipExisting => Some c
                               | Chroma.RaiseOnExisting => None
                               end.
Proof.
  intros Hid. rewrite add_single, (union_singleton_present c id r Hid).
  destruct pol; [done|]. rewrite decide_False; [done|].
  intros Hnone. rewrite Hnone in Hid. by destruct Hid.
Qed.

Lemma add_one_size pol id r (c c' : gmap string Chroma.record) :
  Chroma.add pol [(id, r)] c = Some c' → size c ≤ size c' ≤ S (size c).
Proof.
  destruct (c !! id) as [r0|] eqn:Hid.
  - rewrite add_one_present by done. destruct pol; intros [= <-]. lia.
  - rewrite add_one_fresh by done. intros [= <-].
    rewrite map_size_insert_None by done. lia.
Qed.

Lemma upsert_from_size pol sid docs : ∀ i (c : gmap string Chroma.record),
  size c ≤ size (upsert_from pol sid i docs c).1 ≤ size c + length docs.
Proof.
  induction docs as [|doc docs IH]; intros i c; cbn [upsert_from]; [simpl; lia|].
  destruct (chunk_metadata doc !! "file_name") as [fname|]; [|simpl; lia].
  destruct (Chroma.add pol _ c) as [c'|] eqn:Hadd; [|simpl; lia].
  apply add_one_size in Hadd. specialize (IH (S i) c'). cbn [length]. lia.
Qed.

Lemma upsert_from_present pol sid docs : ∀ i (c : gmap string Chroma.record),
  (∀ k doc, docs !! k = Some doc →
     ∃ fname, chunk_metadata doc !! "file_name" = Some fname
              ∧ is_Some (c !! doc_id sid (i + k) fname)) →
  (upsert_from pol sid i docs c).1 = c.
Proof.
  induction docs as [|doc docs IH]; intros i c Hall; [done|]. cbn [upsert_from].
  destruct (Hall 0 doc eq_refl) as (fname & -> & Hid).
  rewrite Nat.add_0_r in Hid. rewrite add_one_present by done.
  destruct pol; [|done]. apply IH. intros k doc' Hk.
  destruct (Hall (S k) doc' Hk) as (fname' & ? & ?). exists fname'.
  by rewrite Nat.add_succ_comm.
Qed.

(** X18. [upsert_chunks] adds and never updates: every record the
    store held stays as it was, the count grows by at most the number
    of chunks passed, and when every id of the call is taken already
    (the same file uploaded again, changed or not) the store is left
    exactly as it was. *)
Theorem upsert_chunks_never_overwrites
    (env : Env) (docs : list chunk) (ds : doc_store) :
  let ds' := (upsert_chunks env docs ds).1 in
  session_id ds' = session_id ds
  ∧ (∀ id r, store ds !! id = Some r → store ds' !! id = Some r)
  ∧ Chroma.count (store ds) ≤ Chroma.count (store ds')
    ≤ Chroma.count (store ds) + length docs
  ∧ ((∀ i doc, docs !! i = Some doc →
        ∃ fname, chunk_metadata doc !! "file_name" = Some fname
                 ∧ is_Some (store ds !! doc_id (session_id ds) i fname)) →
     store ds' = store ds).
Proof.
  intros ds'. unfold ds', upsert_chunks. cbn [fst session_id store].
  split; [done|]. split; [|split].
  - intros id r Hr. eapply lookup_weaken; [done|apply upsert_from_subseteq].
  - apply upsert_from_size.
  - intros Hall. by apply upsert_from_present.
Qed.

Lemma upsert_from_fresh pol sid docs : ∀ i (c : gmap string Chroma.record),
  (∀ k doc, docs !! k = Some doc →
     ∃ fname, chunk_metadata doc !! "file_name" = Some fname
              ∧ c !! doc_id sid (i + k) fname = None) →
  ∃ c', upsert_from pol sid i docs c = (c', Returned ())
        ∧ size c' = size c + length docs
        ∧ (∀ k doc fname, docs !! k = Some doc →
             chunk_metadata doc !! "file_name" = Some fname →
             c' !! doc_id sid (i + k) fname = Some (Processor.record_of doc))
        ∧ (∀ id, is_Some (c' !! id) →
             is_Some (c !! id)
             ∨ ∃ k doc fname, docs !! k = Some doc
                 ∧ chunk_metadata doc !! "file_name" = Some fname
                 ∧ id = doc_id sid (i + k) fname).
Proof.
  induction docs as [|doc docs IH]; intros i c Hall.
  { exists c. cbn [upsert_from length]. split; [done|]. split; [lia|].
    split; [by intros ??? [=]|]. intros id Hid. by left. }
  cbn [upsert_from].
  destruct (Hall 0 doc eq_refl) as (fname & Hf & Hid).
  rewrite Nat.add_0_r in Hid. rewrite Hf, add_one_fresh by done.
  destruct (IH (S i) (<[doc_id sid i fname := Processor.record_of doc]> c))
    as (c' & Hrun & Hsize & Hget & Hdom).
  { intros k doc' Hk. destruct (Hall (S k) doc' Hk) as (fname' & Hf' & Hid').
    exists fname'. split; [done|]. rewrite Nat.add_succ_comm.
    rewrite lookup_insert_ne; [done|]. intros [Heq _]%doc_id_inj. lia. }
  exists c'. split; [exact Hrun|]. split.
  { rewrite Hsize, map_size_insert_None by done. cbn [length]. lia. }
  split.
  - intros [|k] doc' fname' Hk Hf'.
    + injection Hk as <-. rewrite Hf in Hf'. injection Hf' as <-.
      rewrite Nat.add_0_r.
      eapply lookup_weaken; [apply lookup_insert_eq|].
      pose proof (upsert_from_subseteq pol sid docs (S i)
                    (<[doc_id sid i fname := Processor.record_of doc]> c)) as Hsub.
      by rewrite Hrun in Hsub.
    + rewrite <- Nat.add_succ_comm. by apply Hget.
  - intros id Hin. destruct (Hdom id Hin) as [Hold|(k & doc' & fname' & Hk & Hf' & ->)].
    + destruct (decide (id = doc_id sid i fname)) as [->|Hne].
      * right. exists 0, doc, fname. by rewrite Nat.add_0_r.
      * left. by rewrite lookup_insert_ne in Hold.
    + right. exists (S k), doc', fname'. by rewrite <- Nat.add_succ_comm.
Qed.

(** X19. When every chunk has a file name and none of the ids of the
    call is taken, [upsert_chunks] returns, the count grows by exactly
    the number of chunks, chunk [i] is stored with its text and
    metadata under [doc_<session>_<i>_<file name>], and no other id is
    added. *)
Theorem upsert_chunks_fresh (env : Env) (docs : list chunk) (ds : doc_store) :
  (∀ i doc, docs !! i = Some doc →
     ∃ fname, chunk_metadata doc !! "file_name" = Some fname
              ∧ store ds !! doc_id (session_id ds) i fname = None) →
  ∃ ds',
    upsert_chunks env docs ds = (ds', Returned ())
    ∧ Chroma.count (store ds') = Chroma.count (store ds) + length docs
    ∧ (∀ i doc fname, docs !! i = Some doc →
         chunk_metadata doc !! "file_name" = Some fname →
         store ds' !! doc_id (session_id ds) i fname
         = Some {| Chroma.document := text doc;
                   Chroma.metadata := chunk_metadata doc |})
    ∧ (∀ id, is_Some (store ds' !! id) →
         is_Some (store ds !! id)
         ∨ ∃ i doc fname, docs !! i = Some doc
             ∧ chunk_metadata doc !! "file_name" = Some fname
             ∧ id = doc_id (session_id ds) i fname).
Proof.
  intros Hall. unfold upsert_chunks.
  destruct (upsert_from_fresh (dup env) (session_id ds) docs 0 (store ds) Hall)
    as (c' & Hrun & Hsize & Hget & Hdom).
  rewrite Hrun. eexists. split; [done|]. cbn [store]. split; [exact Hsize|].
  split; [exact Hget|exact Hdom].
Qed.

Lemma upsert_from_app pol sid pre more : ∀ i (c : gmap string Chroma.record),
  upsert_from pol sid i (pre ++ more) c
  = match upsert_from pol sid i pre c with
    | (c', Returned _) => upsert_from pol sid (i + length pre) more c'
    | failed => failed
    end.
Proof.
  induction pre as [|doc pre IH]; intros i c.
  { cbn [app upsert_from length]. by rewrite Nat.add_0_r. }
  cbn [app upsert_from length].
  destruct (chunk_metadata doc !! "file_name"); [|done].
  destruct (Chroma.add pol _ c) as [c'|]; [|done].
  rewrite IH. by rewrite Nat.add_succ_comm.
Qed.

(** X20. A chunk without a [file_name] ends [upsert_chunks] with a
    [KeyError]; the chunks before it stay stored and the ones after it
    are not looked at. *)
Theorem upsert_chunks_stops_at_missing_file_name
    (env : Env) (pre : list chunk) (bad : chunk) (rest : list chunk)
    (ds : doc_store) :
  (upsert_chunks env pre ds).2 = Returned () →
  chunk_metadata bad !! "file_name" = None →
  upsert_chunks env (pre ++ bad :: rest) ds
  = ((upsert_chunks env pre ds).1, Raised "KeyError").
Proof.
  unfold upsert_chunks. cbn [fst snd]. intros Hpre Hbad.
  rewrite upsert_from_app.
  destruct (upsert_from (dup env) (session_id ds) 0 pre (store ds)) as [c' r].
  cbn [fst snd] in *. subst r. cbn [upsert_from]. by rewrite Hbad.
Qed.

Lemma chunk_dicts_lookup texts source_url file_name file_path k doc :
  DocProcessor.chunk_dicts texts source_url file_name file_path !! k = Some doc →
  texts !! k = Some (text doc)
  ∧ chunk_metadata doc !! "file_name" = Some (VStr file_name)
  ∧ chunk_metadata doc !! "file_path" = Some (VStr file_path)
  ∧ chunk_metadata doc !! "source_url" = Some (VStr source_url).
Proof.
  unfold DocProcessor.chunk_dicts. rewrite list_lookup_fmap.
  destruct (texts !! k) as [c|]; [|done]. intros [= <-].
  cbn [text chunk_metadata]. split; [done|]. split; [|split].
  - rewrite lookup_insert_ne by done. apply lookup_insert_eq.
  - apply lookup_insert_eq.
  - rewrite !lookup_insert_ne by done. apply lookup_insert_eq.
Qed.

Lemma chunk_dicts_fresh texts source_url file_name file_path sid
    (c : gmap string Chroma.record) :
  (∀ i, c !! doc_id sid i (VStr file_name) = None) →
  ∀ k doc,
    DocProcessor.chunk_dicts texts source_url file_name file_path !! k = Some doc →
    ∃ fname, chunk_metadata doc !! "file_name" = Some fname
             ∧ c !! doc_id sid (0 + k) fname = None.
Proof.
  intros Hfree k doc Hk. exists (VStr file_name).
  split; [by eapply chunk_dicts_lookup|apply Hfree].
Qed.

(** What [process_single_file] returns when it returns. *)
Lemma process_single_file_returned fs tk file_path file_name chunks :
  DocProcessor.process_single_file fs tk file_path file_name = Returned chunks →
  ∃ content source_url,
    DocProcessor.extract_content_and_source fs file_path file_name
    = Returned (content, source_url)
    ∧ chunks
      = DocProcessor.chunk_dicts
          (DocChunker.chunk_text tk DocConfig.DOC_CHUNK_SIZE
             DocConfig.DOC_CHUNK_OVERLAP content)
          source_url file_name file_path.
Proof.
  unfold DocProcessor.process_single_file.
  destruct (DocProcessor.extract_content_and_source fs file_path file_name)
    as [[content source_url]|e]; [|done].
  intros [= <-]. by exists content, source_url.
Qed.

(** X21. When [process_single_file] returns, every chunk it built
    carries the name and the path of the file, so storing the chunks
    in a session that holds nothing under that name never raises: the
    count grows by the number of chunks and chunk [i] is found under
    [doc_<session>_<i>_<file name>]. *)
Theorem single_file_upload_stores_every_chunk
    (env : Env) (fs : Files) (tk : DocChunker.Tokenizer)
    (file_path file_name : string) (chunks : list chunk) (ds : doc_store) :
  DocProcessor.process_single_file fs tk file_path file_name = Returned chunks →
  (∀ i, store ds !! doc_id (session_id ds) i (VStr file_name) = None) →
  ∃ ds',
    upsert_chunks env chunks ds = (ds', Returned ())
    ∧ Chroma.count (store ds') = Chroma.count (store ds) + length chunks
    ∧ ∀ i doc, chunks !! i = Some doc →
        chunk_metadata doc !! "file_name" = Some (VStr file_name)
        ∧ chunk_metadata doc !! "file_path" = Some (VStr file_path)
        ∧ store ds' !! doc_id (session_id ds) i (VStr file_name)
          = Some {| Chroma.document := text doc;
                    Chroma.metadata := chunk_metadata doc |}.
Proof.
  intros (content & source_url & _ & ->)%process_single_file_returned Hfree.
  unfold upsert_chunks.
  set (texts := DocChunker.chunk_text tk DocConfig.DOC_CHUNK_SIZE
                  DocConfig.DOC_CHUNK_OVERLAP content).
  destruct (upsert_from_fresh (dup env) (session_id ds)
              (DocProcessor.chunk_dicts texts source_url file_name file_path)
              0 (store ds)
              (chunk_dicts_fresh texts source_url file_name file_path _ _ Hfree))
    as (c' & Hrun & Hsize & Hget & _).
  rewrite Hrun. eexists. split; [done|]. cbn [store]. split; [exact Hsize|].
  intros i doc Hi.
  destruct (chunk_dicts_lookup _ _ _ _ _ _ Hi) as (_ & Hname & Hpath & _).
  split; [done|]. split; [done|]. by apply (Hget i doc).
Qed.

(** X22. The chunk dictionaries that [process_single_file] builds for
    two files with different names, stored one after the other in a
    session that holds neither, end up side by side: both calls
    return, the count grows by the chunks of both, and the second call
    leaves the records of the first as they are. *)
Theorem uploads_of_two_files_do_not_collide
    (env : Env) (texts1 texts2 : list string) (source_url1 source_url2 : string)
    (file_path1 file_name1 file_path2 file_name2 : string) (ds : doc_store) :
  file_name1 ≠ file_name2 →
  (∀ i, store ds !! doc_id (session_id ds) i (VStr file_name1) = None) →
  (∀ i, store ds !! doc_id (session_id ds) i (VStr file_name2) = None) →
  ∃ ds1 ds2,
    upsert_chunks env
      (DocProcessor.chunk_dicts texts1 source_url1 file_name1 file_path1) ds
    = (ds1, Returned ())
    ∧ upsert_chunks env
        (DocProcessor.chunk_dicts texts2 source_url2 file_name2 file_path2) ds1
      = (ds2, Returned ())
    ∧ Chroma.count (store ds2)
      = Chroma.count (store ds) + length texts1 + length texts2
    ∧ ∀ id r, store ds1 !! id = Some r → store ds2 !! id = Some r.
Proof.
  intros Hne Hfree1 Hfree2. unfold upsert_chunks.
  destruct (upsert_from_fresh (dup env) (session_id ds)
              (DocProcessor.chunk_dicts texts1 source_url1 file_name1 file_path1)
              0 (store ds)
              (chunk_dicts_fresh texts1 source_url1 file_name1 file_path1 _ _ Hfree1))
    as (c1 & Hrun1 & Hsize1 & _ & Hdom1).
  rewrite Hrun1. exists {| session_id := session_id ds; store := c1 |}.
  cbn [fst snd session_id store].
  assert (∀ i, c1 !! doc_id (session_id ds) i (VStr file_name2) = None) as Hfree.
  { intros i. apply eq_None_not_Some. intros Hin.
    destruct (Hdom1 _ Hin) as [Hold|(k & doc & fname & Hk & Hf & Heq)].
    - rewrite Hfree2 in Hold. by destruct Hold.
    - destruct (chunk_dicts_lookup _ _ _ _ _ _ Hk) as (_ & Hname & _).
      rewrite Hname in Hf. injection Hf as <-.
      apply doc_id_inj in Heq as [_ Heq]. by apply Hne. }
  destruct (upsert_from_fresh (dup env) (session_id ds)
              (DocProcessor.chunk_dicts texts2 source_url2 file_name2 file_path2)
              0 c1
              (chunk_dicts_fresh texts2 source_url2 file_name2 file_path2 _ _ Hfree))
    as (c2 & Hrun2 & Hsize2 & _ & _).
  rewrite Hrun2. eexists. split; [done|]. split; [done|]. cbn [store fst].
  unfold DocProcessor.chunk_dicts in Hsize1, Hsize2.
  rewrite length_fmap in Hsize1, Hsize2.
  split; [unfold Chroma.count; lia|].
  intros id r Hr. eapply lookup_weaken; [done|].
  pose proof (upsert_from_subseteq (dup env) (session_id ds)
                (DocProcessor.chunk_dicts texts2 source_url2 file_name2 file_path2)
                0 c1) as Hsub.
  by rewrite Hrun2 in Hsub.
Qed.


(** The three example files: a text file whose only characters are a
    no-break space and a blank is refused, and so is a file type that
    is not supported; the extension is compared in lower case. *)
Lemma example_files_processed :
  DocProcessor.process_single_file ExampleFiles.files Example.tokenizer
    "/tmp/blank.txt" "blank.txt" = Raised "ValueError"
  ∧ DocProcessor.process_single_file ExampleFiles.files Example.tokenizer
      "/tmp/notes.md" "notes.md" = Raised "ValueError"
  ∧ length <$> (match DocProcessor.process_single_file ExampleFiles.files
                        Example.tokenizer "/tmp/b.TXT" "b.TXT" with
                | Returned chunks => Some chunks
                | Raised _ => None
                end) = Some 1.
Proof. repeat split; by vm_compute. Qed.

End document_ids.

(** ** The further properties at concrete inputs *)


Lemma create_chunks_covers_witness :
  let chunks := default [] (Chunker.create_chunks 3 1 "a b c d e" ∅) in
  1 < 3
  ∧ Chunker.create_chunks 3 1 "a b c d e" ∅ = Some chunks
  ∧ (∀ j word, Py.split "a b c d e" !! j = Some word →
       ∃ ch, chunks !! (j / (3 - 1)) = Some ch
             ∧ Py.split (text ch) !! (j mod (3 - 1)) = Some word)
  ∧ (∀ k ch ch', chunks !! k = Some ch → chunks !! S k = Some ch' →
       drop (3 - 1) (Py.split (text ch)) = take 1 (Py.split (text ch'))).
Proof.
  intros chunks.
  assert (1 < 3) as Hvalid by lia.
  assert (Chunker.create_chunks 3 1 "a b c d e" ∅ = Some chunks) as Hchunks
    by (by vm_compute).
  split; [exact Hvalid|]. split; [exact Hchunks|].
  exact (create_chunks_covers 3 1 "a b c d e" ∅ chunks Hvalid Hchunks).
Defined.

Lemma extract_content_page_witness :
  let env := Example.env Chroma.SkipExisting in
  let html := fetch_html Example.web "https://example.com" in
  let pg := default {| url := ""; title := ""; content := ""; headings := [];
                       word_count := 0; content_hash := ""; timestamp := "" |}
              (Crawler.extract_content env Example.web html "https://example.com") in
  Crawler.extract_content env Example.web html "https://example.com" = Some pg
  ∧ url pg = "https://example.com"
  ∧ String.length (content pg) ≤ Config.MAX_CONTENT_LENGTH
  ∧ word_count pg = length (Py.split (content pg))
  ∧ 2 * word_count pg ≤ Config.MAX_CONTENT_LENGTH + 1
  ∧ content_hash pg = md5_hex env (content pg).
Proof.
  intros env html pg.
  assert (Crawler.extract_content env Example.web html "https://example.com"
          = Some pg) as Hpg by (by vm_compute).
  split; [exact Hpg|].
  destruct (extract_content_page env Example.web html "https://example.com" pg Hpg)
    as (H1 & H2 & H3 & H4 & H5 & _).
  split; [exact H1|]. split; [exact H2|]. split; [exact H3|].
  split; [exact H4|exact H5].
Defined.

Lemma accepted_page_chunks_witness :
  let env := Example.env Chroma.SkipExisting in
  let pg := default {| url := ""; title := ""; content := ""; headings := [];
                       word_count := 0; content_hash := ""; timestamp := "" |}
              (Crawler.accepted env Example.web "https://example.com/blog") in
  Crawler.accepted env Example.web "https://example.com/blog" = Some pg
  ∧ 50 < length (Py.split (content pg))
  ∧ ∃ chunks,
      Chunker.create_chunks Config.CHUNK_SIZE Config.CHUNK_OVERLAP
        (content pg) (Processor.page_metadata env pg) = Some chunks
      ∧ 1 ≤ length chunks ≤ 7
      ∧ ∀ ch, ch ∈ chunks →
          chunk_metadata ch !! "url" = Some (Py.VStr "https://example.com/blog")
          ∧ chunk_metadata ch !! "content_hash"
            = Some (Py.VStr (md5_hex env (content pg)))
          ∧ 1 ≤ length (Py.split (text ch)) ≤ Config.CHUNK_SIZE.
Proof.
  intros env pg.
  assert (Crawler.accepted env Example.web "https://example.com/blog" = Some pg)
    as Hpg by (by vm_compute).
  split; [exact Hpg|].
  exact (accepted_page_chunks env Example.web "https://example.com/blog" pg Hpg).
Defined.

Lemma sync_right_after_crawl_reports_no_change_witness :
  let env := Example.env Chroma.SkipExisting in
  let env2 := Example.env Chroma.RaiseOnExisting in
  let cr := {| Crawler.visited_urls := ∅; Crawler.last_crawl_hashes := ∅ |} in
  md5_hex env2 = md5_hex env
  ∧ sync (Crawler.crawl_domain env2 Example.descending Example.web
            "https://example.com" true
            (Crawler.crawl_domain env Example.ascending Example.web
               "https://example.com" false cr).1).2
    = SyncInfo [] [] 0.
Proof.
  intros env env2 cr.
  assert (md5_hex env2 = md5_hex env) as Hmd5 by reflexivity.
  split; [exact Hmd5|].
  exact (sync_right_after_crawl_reports_no_change env Example.web env2
           Example.ascending Example.descending "https://example.com" false cr Hmd5).
Defined.

Lemma sync_after_analyze_domain_recrawls_witness :
  let env := Example.env Chroma.SkipExisting in
  let a := (Analyzer.analyze_domain env Example.ascending Example.web
              "example.com" Example.session).1 in
  (Analyzer.analyze_domain env Example.ascending Example.web
     "example.com" Example.session).2 = Py.Returned true
  ∧ ∃ a' message,
      Analyzer.sync_domain env Example.descending Example.web a
      = (a', Analyzer.Crawled message)
      ∧ Analyzer.crawler a'
        = (Crawler.crawl_domain env Example.descending Example.web
             (Crawler.with_scheme "example.com") true (Analyzer.crawler a)).1
      ∧ Analyzer.current_domain a' = Analyzer.current_domain a.
Proof.
  intros env a.
  assert ((Analyzer.analyze_domain env Example.ascending Example.web
             "example.com" Example.session).2 = Py.Returned true) as Hok
    by (by vm_compute).
  split; [exact Hok|].
  exact (sync_after_analyze_domain_recrawls env Example.ascending Example.web
           "example.com" Example.session env Example.descending Example.web Hok).
Defined.

Lemma sync_after_analyze_specific_urls_crawls_placeholder_witness :
  let env := Example.env Chroma.SkipExisting in
  let urls := ["example.com/blog"; "  "; "example.com/about"] in
  let a := (Analyzer.analyze_specific_urls env Example.web urls Example.session).1 in
  (Analyzer.analyze_specific_urls env Example.web urls Example.session).2
  = Py.Returned true
  ∧ ∃ a' message,
      Analyzer.sync_domain env Example.ascending Example.web a
      = (a', Analyzer.Crawled message)
      ∧ Analyzer.crawler a'
        = (Crawler.crawl_domain env Example.ascending Example.web
             "multiple-urls" true (Analyzer.crawler Example.session)).1
      ∧ Analyzer.current_domain a' = Analyzer.current_domain a.
Proof.
  intros env urls a.
  assert ((Analyzer.analyze_specific_urls env Example.web urls Example.session).2
          = Py.Returned true) as Hok by (by vm_compute).
  split; [exact Hok|].
  exact (sync_after_analyze_specific_urls_crawls_placeholder env Example.web urls
           Example.session env Example.ascending Example.web Hok).
Defined.

Lemma upsert_chunks_fresh_witness :
  let env := Example.env Chroma.RaiseOnExisting in
  let docs :=
    [ {| text := "one"; chunk_metadata := {["file_name" := Py.VStr "a.txt"]} |};
      {| text := "two"; chunk_metadata := {["file_name" := Py.VStr "a.txt"]} |} ] in
  let ds := {| DocStore.session_id := "s"; DocStore.store := ∅ |} in
  (∀ i doc, docs !! i = Some doc →
     ∃ fname, chunk_metadata doc !! "file_name" = Some fname
              ∧ DocStore.store ds
                  !! DocStore.doc_id (DocStore.session_id ds) i fname = None)
  ∧ ∃ ds',
      DocStore.upsert_chunks env docs ds = (ds', Py.Returned ())
      ∧ Chroma.count (DocStore.store ds')
        = Chroma.count (DocStore.store ds) + length docs.
Proof.
  intros env docs ds.
  assert (∀ i doc, docs !! i = Some doc →
            ∃ fname, chunk_metadata doc !! "file_name" = Some fname
                     ∧ DocStore.store ds
                         !! DocStore.doc_id (DocStore.session_id ds) i fname = None)
    as Hfree.
  { intros i doc Hi. exists (Py.VStr "a.txt"). split; [|apply lookup_empty].
    destruct i as [|[|i]]; [| |done]; injection Hi as <-; by vm_compute. }
  split; [exact Hfree|].
  destruct (upsert_chunks_fresh env docs ds Hfree) as (ds' & Hrun & Hcount & _).
  exists ds'. split; [exact Hrun|exact Hcount].
Defined.

Lemma upsert_chunks_stops_at_missing_file_name_witness :
  let env := Example.env Chroma.SkipExisting in
  let good := {| text := "one";
                 chunk_metadata := {["file_name" := Py.VStr "a.txt"]} |} in
  let bad := {| text := "two"; chunk_metadata := ∅ |} in
  let ds := {| DocStore.session_id := "s"; DocStore.store := ∅ |} in
  (DocStore.upsert_chunks env [good] ds).2 = Py.Returned ()
  ∧ chunk_metadata bad !! "file_name" = None
  ∧ DocStore.upsert_chunks env ([good] ++ bad :: [good]) ds
    = ((DocStore.upsert_chunks env [good] ds).1, Py.Raised "KeyError").
Proof.
  intros env good bad ds.
  assert ((DocStore.upsert_chunks env [good] ds).2 = Py.Returned ()) as Hpre
    by (by vm_compute).
  assert (chunk_metadata bad !! "file_name" = None) as Hbad by apply lookup_empty.
  split; [exact Hpre|]. split; [exact Hbad|].
  exact (upsert_chunks_stops_at_missing_file_name env [good] bad [good] ds Hpre Hbad).
Defined.

Lemma single_file_upload_stores_every_chunk_witness :
  let env := Example.env Chroma.RaiseOnExisting in
  let ds := {| DocStore.session_id := "s"; DocStore.store := ∅ |} in
  let chunks :=
    [ {| text := "one two three";
         chunk_metadata :=
           <["file_path" := Py.VStr "/tmp/a.txt"]>
           (<["file_name" := Py.VStr "a.txt"]>
           (<["source_url" := Py.VStr "file://a.txt"]> ∅)) |} ] in
  DocProcessor.process_single_file ExampleFiles.files Example.tokenizer
    "/tmp/a.txt" "a.txt" = Py.Returned chunks
  ∧ (∀ i, DocStore.store ds
            !! DocStore.doc_id (DocStore.session_id ds) i (Py.VStr "a.txt") = None)
  ∧ ∃ ds',
      DocStore.upsert_chunks env chunks ds = (ds', Py.Returned ())
      ∧ Chroma.count (DocStore.store ds')
        = Chroma.count (DocStore.store ds) + length chunks.
Proof.
  intros env ds chunks.
  assert (DocProcessor.process_single_file ExampleFiles.files Example.tokenizer
            "/tmp/a.txt" "a.txt" = Py.Returned chunks) as Hchunks
    by (by vm_compute).
  assert (∀ i, DocStore.store ds
                 !! DocStore.doc_id (DocStore.session_id ds) i (Py.VStr "a.txt")
               = None) as Hfree by (intros i; apply lookup_empty).
  split; [exact Hchunks|]. split; [exact Hfree|].
  destruct (single_file_upload_stores_every_chunk env ExampleFiles.files
              Example.tokenizer "/tmp/a.txt" "a.txt" chunks ds Hchunks Hfree)
    as (ds' & Hrun & Hcount & _).
  exists ds'. split; [exact Hrun|exact Hcount].
Defined.

Lemma uploads_of_two_files_do_not_collide_witness :
  let env := Example.env Chroma.RaiseOnExisting in
  let ds := {| DocStore.session_id := "s"; DocStore.store := ∅ |} in
  let chunks1 :=
    DocProcessor.chunk_dicts ["one two"; "two three"] "file://a.txt"
      "a.txt" "/tmp/a.txt" in
  let chunks2 :=
    DocProcessor.chunk_dicts ["four five"] "file://b.TXT" "b.TXT" "/tmp/b.TXT" in
  "a.txt" ≠ "b.TXT"
  ∧ (∀ i, DocStore.store ds
            !! DocStore.doc_id (DocStore.session_id ds) i (Py.VStr "a.txt") = None)
  ∧ (∀ i, DocStore.store ds
            !! DocStore.doc_id (DocStore.session_id ds) i (Py.VStr "b.TXT") = None)
  ∧ ∃ ds1 ds2,
      DocStore.upsert_chunks env chunks1 ds = (ds1, Py.Returned ())
      ∧ DocStore.upsert_chunks env chunks2 ds1 = (ds2, Py.Returned ())
      ∧ Chroma.count (DocStore.store ds2)
        = Chroma.count (DocStore.store ds) + 2 + 1.
Proof.
  intros env ds chunks1 chunks2.
  assert ("a.txt" ≠ "b.TXT") as Hne by discriminate.
  assert (∀ i, DocStore.store ds
                 !! DocStore.doc_id (DocStore.session_id ds) i (Py.VStr "a.txt")
               = None) as Hfree1 by (intros i; apply lookup_empty).
  assert (∀ i, DocStore.store ds
                 !! DocStore.doc_id (DocStore.session_id ds) i (Py.VStr "b.TXT")
               = None) as Hfree2 by (intros i; apply lookup_empty).
  split; [exact Hne|]. split; [exact Hfree1|]. split; [exact Hfree2|].
  destruct (uploads_of_two_files_do_not_collide env
              ["one two"; "two three"] ["four five"] "file://a.txt" "file://b.TXT"
              "/tmp/a.txt" "a.txt" "/tmp/b.TXT" "b.TXT" ds Hne Hfree1 Hfree2)
    as (ds1 & ds2 & Hrun1 & Hrun2 & Hcount & _).
  exists ds1, ds2. split; [exact Hrun1|]. split; [exact Hrun2|exact Hcount].
Defined.
